(** * ADGM corporate agent: paragraph matching, annotation, classification

    A shallow embedding of [docx_utils.py], [classifier.py] and the
    rule-based part of [app.py], with the properties of the annotation
    engine, the classifier, the process detector, the red-flag scanner and
    the loader.  The later modules add the checklist, the merging of the
    reviewer's answer and the review loop of [app.py], and the cleaning of
    the answer and the gathering of chunks of [rag_utils.py].

    Conventions of the embedding.
    - Text is a [string] of ASCII characters.  Python's [str.lower],
      [str.strip] and the classes [\w] and [\s] of [re] are given on the
      ASCII range, where they coincide with the definitions below.
    - A python-docx document is the sequence of its body paragraphs, a
      paragraph is the sequence of its runs, and [para.text] is the
      concatenation of the run texts.
    - An issue is a Python dict with string keys: a [gmap string pyval].
    - A raised exception is the outcome [Raise] of the monad [exn].
    - The calls into python-docx succeed on an existing file: the texts
      are XML-compatible and saving does not fail. *)

From Stdlib Require Import Ascii String NArith.
From Stdlib Require Import DecimalString DecimalNat.
From stdpp Require Import base option list strings gmap.

Open Scope string_scope.
Open Scope list_scope.

(** ** Python built-ins *)

Module Py.

(** Outcome of a call that may raise. *)
Inductive exn (A : Type) : Type :=
  | Return (a : A)
  | Raise.
Arguments Return {A} a.
Arguments Raise {A}.

Definition bind {A B} (m : exn A) (f : A -> exn B) : exn B :=
  match m with
  | Return a => f a
  | Raise => Raise
  end.

Notation "'do' x <- m ; k" := (bind m (fun x => k))
  (at level 10, x name, m at level 100, k at level 200).

(** Character classes on the ASCII range. *)
Definition between (lo hi : N) (c : ascii) : bool :=
  let n := N_of_ascii c in ((lo <=? n) && (n <=? hi))%N.

(** [str.isspace] and [\s]: TAB..CR, FS..US and the blank. *)
Definition is_space (c : ascii) : bool :=
  between 9 13 c || between 28 32 c.

(** [\w]: letters, digits and the underscore. *)
Definition is_word (c : ascii) : bool :=
  between 48 57 c || between 65 90 c || between 97 122 c
  || (N_of_ascii c =? 95)%N.

(** [\W] *)
Definition non_word (c : ascii) : bool := negb (is_word c).

Definition lower_char (c : ascii) : ascii :=
  if between 65 90 c then ascii_of_N (N_of_ascii c + 32) else c.

(** [s.lower()] *)
Fixpoint lower (s : string) : string :=
  match s with
  | EmptyString => EmptyString
  | String c s' => String (lower_char c) (lower s')
  end.

(** [s.startswith(t)] *)
Fixpoint startswith (s t : string) : bool :=
  match t, s with
  | EmptyString, _ => true
  | String _ _, EmptyString => false
  | String b t', String a s' => bool_decide (a = b) && startswith s' t'
  end.

(** [t in s]: [t] occurs in [s] as a contiguous substring. *)
Fixpoint str_in (t s : string) : bool :=
  startswith s t ||
  match s with
  | EmptyString => false
  | String _ s' => str_in t s'
  end.

(** [s.lstrip()], [s.rstrip()], [s.strip()] *)
Fixpoint lstrip (s : string) : string :=
  match s with
  | EmptyString => EmptyString
  | String c s' => if is_space c then lstrip s' else s
  end.

Fixpoint rstrip (s : string) : string :=
  match s with
  | EmptyString => EmptyString
  | String c s' =>
      match rstrip s' with
      | EmptyString => if is_space c then EmptyString else String c EmptyString
      | r => String c r
      end
  end.

Definition strip (s : string) : string := rstrip (lstrip s).

(** Truth value of a string: non-empty. *)
Definition nonempty (s : string) : bool :=
  match s with
  | EmptyString => false
  | String _ _ => true
  end.

(** [sep.join(l)] *)
Fixpoint join (sep : string) (l : list string) : string :=
  match l with
  | [] => ""
  | [s] => s
  | s :: rest => s +:+ sep +:+ join sep rest
  end.

(** [re.split(r"C+", s)] for a character class [C] given by [sep]: the
    pieces between the maximal runs of separator characters.  A run at the
    very start or end of [s] leaves an empty piece there, as in Python.
    [cur] is the piece being read, [in_sep] tells that the previous
    character belonged to a separator run. *)
Fixpoint re_split_from (sep : ascii -> bool) (s cur : string) (in_sep : bool)
  : list string :=
  match s with
  | EmptyString => [cur]
  | String c s' =>
      if sep c then
        if in_sep then re_split_from sep s' "" true
        else cur :: re_split_from sep s' "" true
      else re_split_from sep s' (cur +:+ String c "") false
  end.

Definition re_split (sep : ascii -> bool) (s : string) : list string :=
  re_split_from sep s "" false.

(** [enumerate(l)] *)
Fixpoint enumerate_from {A} (i : nat) (l : list A) : list (nat * A) :=
  match l with
  | [] => []
  | x :: l' => (i, x) :: enumerate_from (S i) l'
  end.

Definition enumerate {A} (l : list A) : list (nat * A) := enumerate_from 0 l.

(** Values found in an issue dict.  The dicts come from literals of the
    program and from [json.loads]: a value is [None], a [str], or an
    object of another type (number, bool, list, dict), of which the code
    only observes the truth value and the rendering by [str()]. *)
Inductive pyval : Type :=
  | PNone
  | PStr (s : string)
  | PObj (truth : bool) (shown : string).

(** [bool(v)] *)
Definition truthy (v : pyval) : bool :=
  match v with
  | PNone => false
  | PStr s => nonempty s
  | PObj b _ => b
  end.

(** [str(v)], as used by an f-string. *)
Definition py_str (v : pyval) : string :=
  match v with
  | PNone => "None"
  | PStr s => s
  | PObj _ r => r
  end.

(** [v or ""] *)
Definition or_empty (v : pyval) : pyval :=
  if truthy v then v else PStr "".

(** [v.lower()]: only a [str] has the method; otherwise [AttributeError]. *)
Definition lower_method (v : pyval) : exn string :=
  match v with
  | PStr s => Return (lower s)
  | _ => Raise
  end.

#[global] Instance pyval_eq_dec : EqDecision pyval.
Proof. solve_decision. Defined.

(** [d.get(k, default)] *)
Definition get (d : gmap string pyval) (k : string) (dflt : pyval) : pyval :=
  default dflt (d !! k).

End Py.

(** ** The python-docx objects the code uses *)

Module Docx.
Import Py.

(** A run of text with the two character properties the code sets. *)
Record run : Type := Run {
  run_text : string;
  italic : option bool;
  bold : option bool
}.

(** [doc.paragraphs]: the body paragraphs, in document order. *)
Abbreviation paragraph := (list run).
Abbreviation document := (list (list run)).

(** The .docx files, by path. *)
Abbreviation files := (gmap string (list (list run))).

(** [para.text] *)
Definition text (para : paragraph) : string :=
  foldr (fun r acc => run_text r +:+ acc) "" para.

(** [para.add_run(t)], with the properties given afterwards. *)
Definition add_run (para : paragraph) (t : string) (i b : option bool)
  : paragraph :=
  para ++ [Run t i b].

(** [doc.add_paragraph(t)]: a new last paragraph, with one run when [t] is
    not empty. *)
Definition add_paragraph (doc : document) (t : string) : document :=
  doc ++ [if nonempty t then add_run [] t None None else []].

(** [body[i].addnext(body[j])] of lxml, on siblings: the element at [j] is
    unlinked and linked again right after the element at [i]. *)
Definition addnext (body : document) (i j : nat) : document :=
  match body !! j with
  | None => body
  | Some e =>
      if decide (i = j) then body
      else
        let rest := delete j body in
        let i' := if decide (j < i) then i - 1 else i in
        take (S i') rest ++ e :: drop (S i') rest
  end.

(** [Document(path)]: raises when there is no such file. *)
Definition Document (fs : files) (path : string) : exn document :=
  match fs !! path with
  | Some doc => Return doc
  | None => Raise
  end.

(** [doc.save(path)] *)
Definition save (fs : files) (doc : document) (path : string) : files :=
  <[path := doc]> fs.

End Docx.

(** ** docx_utils.py *)

Module DocxUtils.
Import Py Docx.

(** The dict built for each parsed file. *)
Record parsed : Type := Parsed {
  d_path : string;
  d_text : string;
  d_paragraphs : list string
}.

Fixpoint parse_loop (fs : files) (paths : list string) (out : list parsed)
  : exn (list parsed) :=
  match paths with
  | [] => Return out
  | p :: paths' =>
      do doc <- Document fs p;
      let paras :=
        map text
          (filter (fun para =>
                     nonempty (text para) && nonempty (strip (text para)) = true)
                  doc) in
      let full_text := join (String "010" "") paras in
      parse_loop fs paths' (out ++ [Parsed p full_text paras])
  end.

Definition parse_docx_documents (fs : files) (paths : list string)
  : exn (list parsed) :=
  parse_loop fs paths [].

(** [[t for t in re.split(r"\W+", (v or "").lower()) if len(t) > 3]] *)
Definition long_tokens (v : pyval) : exn (list string) :=
  do s <- lower_method (or_empty v);
  Return (filter (fun t => 3 < String.length t) (re_split non_word s)).

(** The body of the paragraph loop up to the comparison: the score. *)
Definition paragraph_score (section_tokens issue_tokens : list string)
    (para : paragraph) : nat :=
  let pl := lower (text para) in
  let score := 0 in
  let score :=
    fold_left (fun score tok => if str_in tok pl then score + 2 else score)
              section_tokens score in
  let score :=
    fold_left (fun score tok => if str_in tok pl then score + 1 else score)
              issue_tokens score in
  score.

(** One iteration of the paragraph loop on [(best_idx, best_score)]. *)
Definition best_step (section_tokens issue_tokens : list string)
    (best : option nat * nat) (ip : nat * paragraph) : option nat * nat :=
  let '(best_idx, best_score) := best in
  let '(i, para) := ip in
  let score := paragraph_score section_tokens issue_tokens para in
  if decide (best_score < score) then (Some i, score)
  else (best_idx, best_score).

Definition _find_paragraph_index_for_issue (doc : document)
    (section issue_text : pyval) : exn (option nat) :=
  do section_tokens <- long_tokens section;
  do issue_tokens <- long_tokens issue_text;
  let '(best_idx, best_score) :=
    fold_left (best_step section_tokens issue_tokens) (enumerate doc)
              (None, 0) in
  if decide (1 <= best_score) then Return best_idx else Return None.

(** The new paragraph is added at the end and then moved after the target;
    an [IndexError] of [doc.paragraphs[para_index]] is swallowed by the
    handler and leaves it at the end.  The result is always [True]. *)
Definition _insert_after_paragraph (doc : document) (para_index : nat)
    (t : string) : document * bool :=
  let after := add_run [] t (Some true) (Some false) in
  let doc := doc ++ [after] in
  match doc !! para_index with
  | Some _ => (addnext doc para_index (length doc - 1), true)
  | None => (doc, true)
  end.

Abbreviation issue := (gmap string pyval).

(** The f-string of the note. *)
Definition note_text (iss : issue) : string :=
  "REVIEW NOTE (severity=" +:+ py_str (get iss "severity" (PStr "Medium"))
  +:+ "): " +:+ py_str (get iss "issue" PNone)
  +:+ ". Suggestion: " +:+ py_str (get iss "suggestion" (PStr "")).

(** The body of the issue loop. *)
Definition annotate_issue (doc : document) (iss : issue) : document :=
  let section := get iss "section" (PStr "") in
  let note := note_text iss in
  let '(doc, inserted) :=
    if truthy section then
      match _find_paragraph_index_for_issue doc section
              (get iss "issue" (PStr "")) with
      | Return (Some idx) =>
          (fst (_insert_after_paragraph doc idx note), true)
      | Return None => (doc, false)
      | Raise => (doc, false)
      end
    else (doc, false) in
  if inserted then doc
  else add_paragraph doc ("REVIEW NOTE (general): " +:+ note).

(** The issue loop. *)
Definition annotate (doc : document) (issues : list issue) : document :=
  fold_left annotate_issue issues doc.

Definition insert_review_notes_and_save (fs : files) (original_path : string)
    (issues : list issue) (out_path : string) : exn (files * string) :=
  do doc <- Document fs original_path;
  let doc := annotate doc issues in
  Return (save fs doc out_path, out_path).

End DocxUtils.


(** ** classifier.py *)

Module Classifier.
Import Py.

(** Whether the character at position [i] of [s] is a word character;
    false outside of the string. *)
Definition word_at (s : string) (i : nat) : bool :=
  match String.get i s with
  | Some c => is_word c
  | None => false
  end.

(** [\b] at position [i]: exactly one of the characters before and after
    the position is a word character. *)
Definition word_boundary (s : string) (i : nat) : bool :=
  xorb (match i with 0 => false | S j => word_at s j end) (word_at s i).

(** The literal [lit] is read at position [i]. *)
Definition literal_at (s : string) (i : nat) (lit : string) : bool :=
  String.eqb (substring i (String.length lit) s) lit.

(** [\b(lit1|lit2|...)\b] matches at position [i]. *)
Definition match_at (alts : list string) (s : string) (i : nat) : bool :=
  word_boundary s i &&
  existsb (fun lit => literal_at s i lit
                      && word_boundary s (i + String.length lit)) alts.

(** Truth value of [re.search(r"\b(lit1|lit2|...)\b", s)]. *)
Definition re_search_words (alts : list string) (s : string) : bool :=
  existsb (match_at alts s) (seq 0 (S (String.length s))).

Definition classify_doc_type (text : string) : string :=
  let text_l := lower text in
  if re_search_words
       ["aoa"; "articles of association"; "article of association"] text_l
  then "Articles of Association"
  else if re_search_words
       ["moa"; "memorandum of association"; "memorandum"] text_l
  then "Memorandum of Association"
  else if re_search_words
       ["ubo"; "ultimate beneficial owner";
        "ultimate beneficial owner declaration"] text_l
  then "UBO Declaration Form"
  else if re_search_words
       ["register of members and directors"; "register of members";
        "register of directors"] text_l
  then "Register of Members and Directors"
  else if re_search_words
       ["incorporation application"; "application for incorporation";
        "application to incorporate"; "incorporation form"] text_l
  then "Incorporation Application Form"
  else
    let word_count :=
      length (filter (fun w => nonempty (strip w) = true)
                     (re_split is_space text_l)) in
    if decide (word_count < 40) then "Short Document"
    else if re_search_words
         ["agreement"; "contract"; "terms"; "conditions"] text_l
    then "Commercial Agreement / Other"
    else "Commercial Agreement / Other".

Definition incorporation_keywords : gset string :=
  list_to_set
    ["Articles of Association"; "Memorandum of Association";
     "Incorporation Application Form"; "UBO Declaration Form";
     "Register of Members and Directors"].

Definition detect_process (predicted_types : list string) : string :=
  match predicted_types with
  | [] => "Unknown / Other"
  | _ =>
      let count :=
        sum_list (map (fun _ => 1)
                      (filter (fun pt => pt ∈ incorporation_keywords)
                              predicted_types)) in
      if decide (2 <= count) then "Company Incorporation"
      else "Unknown / Other"
  end.

End Classifier.

(** ** app.py: classification of the uploads, rule-based checks, review *)

Module App.
Import Py Docx DocxUtils Classifier.

(** A parsed file with its ["predicted_type"] entry. *)
Record classified : Type := Classified {
  parsed_of : parsed;
  predicted_type : string
}.

Definition classify_docs (docs : list parsed) : list classified :=
  map (fun d => Classified d (classify_doc_type (d_text d))) docs.

Definition jurisdiction_issue (d : classified) : issue :=
  list_to_map
    [("document", PStr (predicted_type d));
     ("section", PStr "Jurisdiction clause");
     ("issue", PStr "Jurisdiction clause does not specify ADGM");
     ("severity", PStr "High");
     ("suggestion",
      PStr "Update jurisdiction to Abu Dhabi Global Market (ADGM) Courts.")].

Definition signatory_issue (d : classified) : issue :=
  list_to_map
    [("document", PStr (predicted_type d));
     ("section", PStr "Signatory section");
     ("issue", PStr "Missing explicit signatory or signature block");
     ("severity", PStr "Medium");
     ("suggestion", PStr "Add signatory name, title and date.")].

(** The basic checks of the loop over the documents, on [issues_found]. *)
Definition basic_checks (issues_found : list issue) (d : classified)
  : list issue :=
  let text := d_text (parsed_of d) in
  let issues_found :=
    if negb (str_in "adgm" (lower text))
       && negb (str_in "abu dhabi global market" (lower text))
    then issues_found ++ [jurisdiction_issue d]
    else issues_found in
  let issues_found :=
    if negb (str_in "signature" (lower text))
       && negb (str_in "signed" (lower text))
    then issues_found ++ [signatory_issue d]
    else issues_found in
  issues_found.

Definition red_flag_scan (docs : list classified) : list issue :=
  fold_left basic_checks docs [].

(** The issues of one document and its review: the file is read again
    from its path. *)
Definition doc_issues (issues_found : list issue) (d : classified)
  : list issue :=
  filter (fun i => get i "document" PNone = PStr (predicted_type d))
         issues_found.

Definition review (fs : files) (issues_found : list issue) (d : classified)
    (out_path : string) : exn (files * string) :=
  insert_review_notes_and_save fs (d_path (parsed_of d))
    (doc_issues issues_found d) out_path.

End App.

(** ** Specification-side definitions *)

Module Spec.
Import Py Docx DocxUtils Classifier App.

(** Tokens as the specification words them: split on runs of non-word
    characters, lowercase, discard the tokens of length at most 3. *)
Definition spec_tokens (s : string) : list string :=
  filter (fun t => ~ String.length t <= 3) (map lower (re_split non_word s)).

(** The token occurs as a substring of the lowercased paragraph text. *)
Definition occurs_in (para : paragraph) (tok : string) : Prop :=
  str_in tok (lower (text para)) = true.

#[global] Instance occurs_in_dec para tok : Decision (occurs_in para tok).
Proof. unfold occurs_in. apply _. Defined.

(** +2 for every section token that occurs, +1 for every issue token. *)
Definition spec_score (section_label issue_text : string) (para : paragraph)
  : nat :=
  2 * length (filter (occurs_in para) (spec_tokens section_label))
  + length (filter (occurs_in para) (spec_tokens issue_text)).

(** [i] is the earliest paragraph of maximal score, that score being at
    least 1. *)
Definition earliest_best (score : paragraph -> nat) (doc : document)
    (i : nat) : Prop :=
  exists para, doc !! i = Some para /\ 1 <= score para
    /\ (forall j q, doc !! j = Some q -> score q <= score para)
    /\ (forall j q, j < i -> doc !! j = Some q -> score q < score para).

(** What the loop has found after the paragraphs [doc]: nothing scored
    yet, or the earliest paragraph of maximal score. *)
Definition best_so_far (score : paragraph -> nat) (doc : document)
    (best : option nat * nat) : Prop :=
  match best.1 with
  | None => best.2 = 0 /\ forall q, q ∈ doc -> score q = 0
  | Some i =>
      exists para, doc !! i = Some para /\ score para = best.2 /\ 1 <= best.2
        /\ (forall j q, doc !! j = Some q -> score q <= best.2)
        /\ (forall j q, j < i -> doc !! j = Some q -> score q < best.2)
  end.

(** The paragraph of a targeted note and of a general note. *)
Definition targeted_note (iss : issue) : paragraph :=
  [Run (note_text iss) (Some true) (Some false)].

Definition general_note (iss : issue) : paragraph :=
  [Run ("REVIEW NOTE (general): " +:+ note_text iss) None None].

(** Where the issue loop places a targeted note in the document it is
    working on: the lookup is tried only for a section label that is true,
    and a raised exception counts as no index. *)
Definition target_index (doc : document) (iss : issue) : option nat :=
  if truthy (get iss "section" (PStr "")) then
    match _find_paragraph_index_for_issue doc (get iss "section" (PStr ""))
            (get iss "issue" (PStr "")) with
    | Return r => r
    | Raise => None
    end
  else None.


(** The note that the issue loop adds for [iss] to the document [doc]. *)
Definition issue_note (doc : document) (iss : issue) : paragraph :=
  match target_index doc iss with
  | Some _ => targeted_note iss
  | None => general_note iss
  end.

(** [n] is a note of the issue [iss], targeted or general. *)
Definition note_of (iss : issue) (n : paragraph) : Prop :=
  n = targeted_note iss \/ n = general_note iss.

(** Every character of [s] satisfies [p]. *)
Fixpoint all_chars (p : ascii -> bool) (s : string) : bool :=
  match s with
  | EmptyString => true
  | String c s' => p c && all_chars p s'
  end.

(** Number of maximal runs of characters that are not whitespace. *)
Fixpoint token_starts (prev_space : bool) (s : string) : nat :=
  match s with
  | EmptyString => 0
  | String c s' =>
      (if prev_space && negb (is_space c) then 1 else 0)
      + token_starts (is_space c) s'
  end.

Definition whitespace_tokens (s : string) : nat := token_starts true s.

(** The rules of the classifier as an ordered list of predicate and label,
    read on the lowercased text. *)
Definition priority_rules : list ((string -> bool) * string) :=
  [ (re_search_words
       ["aoa"; "articles of association"; "article of association"],
     "Articles of Association");
    (re_search_words ["moa"; "memorandum of association"; "memorandum"],
     "Memorandum of Association");
    (re_search_words
       ["ubo"; "ultimate beneficial owner";
        "ultimate beneficial owner declaration"],
     "UBO Declaration Form");
    (re_search_words
       ["register of members and directors"; "register of members";
        "register of directors"],
     "Register of Members and Directors");
    (re_search_words
       ["incorporation application"; "application for incorporation";
        "application to incorporate"; "incorporation form"],
     "Incorporation Application Form");
    (fun t => bool_decide (whitespace_tokens t < 40), "Short Document") ].

Fixpoint first_match (rules : list ((string -> bool) * string))
    (t fallback : string) : string :=
  match rules with
  | [] => fallback
  | (applies, label) :: rules' =>
      if applies t then label else first_match rules' t fallback
  end.

Definition classify_by_priority (text : string) : string :=
  first_match priority_rules (lower text) "Commercial Agreement / Other".

(** A paragraph text with at least one character that is not whitespace. *)
Definition has_visible_char (t : string) : Prop :=
  exists a c b, t = a +:+ String c b /\ is_space c = false.

(** The loader keeps the paragraph. *)
Definition kept (para : paragraph) : Prop :=
  nonempty (text para) && nonempty (strip (text para)) = true.

#[global] Instance kept_dec para : Decision (kept para).
Proof. unfold kept. apply _. Defined.

(** An issue with the given section label and severity is among [l]. *)
Definition flagged (l : list issue) (section severity : string) : Prop :=
  exists iss, iss ∈ l /\ iss !! "section" = Some (PStr section)
    /\ iss !! "severity" = Some (PStr severity).

Definition flagged_for (l : list issue) (doc_type section severity : string)
  : Prop :=
  exists iss, iss ∈ l /\ iss !! "document" = Some (PStr doc_type)
    /\ iss !! "section" = Some (PStr section)
    /\ iss !! "severity" = Some (PStr severity).

(** The document that [insert_review_notes_and_save] loads for a parsed
    file, and on whose paragraphs the lookup runs, has no paragraph with
    an empty text. *)
Definition engine_sees_no_empty (fs : files) (paths : list string) : Prop :=
  forall out d doc,
    parse_docx_documents fs paths = Return out ->
    d ∈ out ->
    Document fs (d_path d) = Return doc ->
    Forall (fun para => text para <> "") doc.

(** What the loader builds from the file at path [p]. *)
Definition parsed_from (fs : files) (p : string) (d : parsed) : Prop :=
  exists doc,
    fs !! p = Some doc
    /\ d_path d = p
    /\ d_paragraphs d = map text (filter kept doc)
    /\ d_text d = join (String "010" "") (d_paragraphs d).

End Spec.

(** ** Sample inputs *)

Module Samples.
Import Py Docx DocxUtils Classifier App.

Definition plain (t : string) : paragraph := [Run t None None].

Definition courts_doc : document :=
  [plain "ADGM Courts apply."; plain "Random text."; plain "Signed by director."].

(** A one-paragraph agreement that names no ADGM jurisdiction. *)
Definition dubai_doc : document :=
  [plain "The jurisdiction clause refers to the courts of Dubai."].

Definition dubai_entry : classified :=
  Classified
    (Parsed "dubai.docx"
            "The jurisdiction clause refers to the courts of Dubai."
            ["The jurisdiction clause refers to the courts of Dubai."])
    "Short Document".



(** Records with missing or ill-typed entries. *)
Definition bare_issue : issue := list_to_map [("document", PStr "Short Document")].


(** A file whose first paragraph is empty and whose last is blank. *)
Definition blank_doc : document :=
  [[]; plain "Hello world"; plain "   "].

Definition blank_files : files := {[ "blank.docx" := blank_doc ]}.

Definition dubai_files : files := {[ "dubai.docx" := dubai_doc ]}.

End Samples.

(** ** More of app.py: checklist, unavailable reviewer, review loop *)

Module PyPath.
Import Py.

(** [s.endswith(t)] *)
Definition endswith (s t : string) : bool :=
  String.eqb
    (substring (String.length s - String.length t) (String.length t) s) t
  && bool_decide (String.length t <= String.length s).

(** [os.path.basename(p)] on POSIX: what follows the last slash.  [cur] is
    the component being read. *)
Fixpoint basename_from (p cur : string) : string :=
  match p with
  | EmptyString => cur
  | String c p' =>
      if bool_decide (c = "/"%char) then basename_from p' ""
      else basename_from p' (cur +:+ String c "")
  end.

Definition basename (p : string) : string := basename_from p "".


End PyPath.

Module AppFlow.
Import Py Docx DocxUtils Classifier App PyPath.

(** The required documents of the detected process. *)
Definition required_docs (process : string) : list string :=
  if decide (process = "Company Incorporation") then
    ["Articles of Association"; "Memorandum of Association";
     "Incorporation Application Form"; "UBO Declaration Form";
     "Register of Members and Directors"]
  else [].

Definition uploaded_doc_types (docs : list classified) : list string :=
  map predicted_type docs.

(** [[r for r in required_docs if r not in uploaded_doc_types]] *)
Definition missing (required uploaded : list string) : list string :=
  filter (fun r => r ∉ uploaded) required.

(** The issue recorded for a document when the reviewer is not available. *)
Definition unavailable_issue (d : classified) : issue :=
  list_to_map
    [("document", PStr (predicted_type d));
     ("section", PStr "RAG Analysis");
     ("issue", PStr "Gemini or RAG unavailable.");
     ("severity", PStr "Low");
     ("suggestion",
      PStr "Set GEMINI_API_KEY and ingest references, or check quota.")].

(** The loop of the branch without reviewer, on [issues_found]. *)
Definition mark_unavailable (issues_found : list issue)
    (docs : list classified) : list issue :=
  fold_left (fun issues_found d => issues_found ++ [unavailable_issue d])
            docs issues_found.

(** The issues found when no reviewer is available: the basic checks of
    every document, then the unavailability notices. *)
Definition rule_based_issues (docs : list classified) : list issue :=
  mark_unavailable (red_flag_scan docs) docs.




End AppFlow.

(** ** More specification-side definitions *)

Module Facts.
Import Py Docx DocxUtils Classifier App PyPath AppFlow Spec.

(** The labels of the classifier. *)
Definition doc_labels : list string :=
  ["Articles of Association"; "Memorandum of Association";
   "UBO Declaration Form"; "Register of Members and Directors";
   "Incorporation Application Form"; "Short Document";
   "Commercial Agreement / Other"].

(** A value on which [.lower()] raises: true and not a string. *)
Definition not_a_string (v : pyval) : Prop :=
  exists r, v = PObj true r.

(** The last and the first character of a text, and whether such a
    character is a word character. *)
Fixpoint last_char (s : string) : option ascii :=
  match s with
  | EmptyString => None
  | String c s' =>
      match s' with
      | EmptyString => Some c
      | String _ _ => last_char s'
      end
  end.

Definition first_char (s : string) : option ascii :=
  match s with
  | EmptyString => None
  | String c _ => Some c
  end.

Definition word_char (o : option ascii) : bool :=
  match o with
  | Some c => is_word c
  | None => false
  end.

(** [lit] occurs in [s] as a whole word: no word character right before
    it nor right after it. *)
Definition whole_word (lit s : string) : Prop :=
  exists pre post,
    s = pre +:+ lit +:+ post
    /\ word_char (last_char pre) = false
    /\ word_char (first_char post) = false.

(** A literal that starts and ends with a word character. *)
Definition keyword (lit : string) : Prop :=
  word_char (first_char lit) = true /\ word_char (last_char lit) = true.



(** The lowercased texts of the paragraphs. *)
Definition lowered_texts (doc : document) : list string :=
  map (fun para => lower (text para)) doc.

End Facts.

(** ** rag_utils.py: cleaning of the reviewer's answer *)

Module RagUtils.
Import Py PyPath.

(** The line boundaries of [str.splitlines] on the ASCII range: LF, VT,
    FF, CR, FS, GS and RS. *)
Definition is_linebreak (c : ascii) : bool :=
  between 10 13 c || between 28 30 c.

(** [s.splitlines()]: the lines without their ends; CR LF is one
    boundary, and a final boundary opens no further line.  [cur] is the
    line being read. *)
Fixpoint splitlines_from (s cur : string) : list string :=
  match s with
  | EmptyString => if nonempty cur then [cur] else []
  | String c s' =>
      if is_linebreak c then
        match s' with
        | String c' s'' =>
            if bool_decide (c = "013"%char) && bool_decide (c' = "010"%char)
            then cur :: splitlines_from s'' ""
            else cur :: splitlines_from s' ""
        | EmptyString => cur :: splitlines_from s' ""
        end
      else splitlines_from s' (cur +:+ String c "")
  end.

Definition splitlines (s : string) : list string := splitlines_from s "".

(** [l[1:-1]] *)
Definition middle {A} (l : list A) : list A :=
  take (length l - 2) (drop 1 l).

(** [s[n:]] *)
Fixpoint str_drop (n : nat) (s : string) : string :=
  match n, s with
  | 0, _ => s
  | S n', String _ s' => str_drop n' s'
  | S _, EmptyString => EmptyString
  end.

(** [(output or "").strip()]: only a [str] has the method. *)
Definition strip_method (v : pyval) : exn string :=
  match v with
  | PStr s => Return (strip s)
  | _ => Raise
  end.

Definition _clean_gemini_output (output : pyval) : exn string :=
  do cleaned <- strip_method (or_empty output);
  let cleaned :=
    if startswith cleaned "```" && endswith cleaned "```"
    then strip (join (String "010" "") (middle (splitlines cleaned)))
    else cleaned in
  let cleaned :=
    if startswith (lower cleaned) "json"
    then strip (str_drop 4 cleaned)
    else cleaned in
  Return cleaned.

End RagUtils.

Module RagFacts.
Import Py PyPath RagUtils Spec Facts.

(** A text without line boundary. *)
Definition one_line (s : string) : bool :=
  all_chars (fun c => negb (is_linebreak c)) s.

(** Whether a character, if any, is whitespace. *)
Definition space_char (o : option ascii) : bool :=
  match o with
  | Some c => is_space c
  | None => false
  end.

(** A fenced block: an opening fence with a language tag, the lines of
    the body, a closing fence. *)
Definition fenced (tag : string) (body : list string) : string :=
  join (String "010" "") ((("```" +:+ tag) :: body) ++ ["```"]).

End RagFacts.

(** ** app.py: merging the reviewer's answer into the issues *)

Module Reviewer.
Import Py Docx DocxUtils App RagUtils.

(** The value that [json.loads] builds.  A number carries its truth value
    and its rendering by [str()]; a dict is the list of its items, in
    order, with distinct keys. *)
Unset Elimination Schemes.
Inductive json : Type :=
  | JNull
  | JBool (b : bool)
  | JInt (truth : bool) (shown : string)
  | JFloat (truth : bool) (shown : string)
  | JStr (s : string)
  | JList (l : list json)
  | JDict (items : list (string * json)).
Set Elimination Schemes.

(** A decoded value as an entry of an issue dict.  [py_repr] is the
    rendering of lists and dicts by [str()]. *)
Definition to_pyval (py_repr : json -> string) (v : json) : pyval :=
  match v with
  | JNull => PNone
  | JBool b => PObj b (if b then "True" else "False")
  | JInt t sh => PObj t sh
  | JFloat t sh => PObj t sh
  | JStr s => PStr s
  | JList l => PObj (bool_decide (l <> [])) (py_repr v)
  | JDict items => PObj (bool_decide (items <> [])) (py_repr v)
  end.

(** A decoded dict as an issue. *)
Definition to_issue (py_repr : json -> string) (items : list (string * json))
  : issue :=
  list_to_map (map (fun kv => (kv.1, to_pyval py_repr kv.2)) items).

(** [f"{type(parsed)}"] *)
Definition type_name (v : json) : string :=
  match v with
  | JNull => "<class 'NoneType'>"
  | JBool _ => "<class 'bool'>"
  | JInt _ _ => "<class 'int'>"
  | JFloat _ _ => "<class 'float'>"
  | JStr _ => "<class 'str'>"
  | JList _ => "<class 'list'>"
  | JDict _ => "<class 'dict'>"
  end.

(** What [for p in v] goes through: the elements of a list, the
    characters of a string, the keys of a dict; other values are not
    iterable ([TypeError]). *)
Definition iterate (v : json) : exn (list json) :=
  match v with
  | JList l => Return l
  | JStr s => Return (map (fun c => JStr (String c "")) (list_ascii_of_string s))
  | JDict items => Return (map (fun kv => JStr kv.1) items)
  | _ => Raise
  end.

(** The inner loop: [p["document"] = doc_type] succeeds on a dict only;
    the issues appended before a [TypeError] stay in [issues_found]. *)
Fixpoint file_issues (py_repr : json -> string) (doc_type : string)
    (ps : list json) (issues_found : list issue) : list issue * exn unit :=
  match ps with
  | [] => (issues_found, Return tt)
  | JDict items :: ps' =>
      file_issues py_repr doc_type ps'
        (issues_found ++ [<["document" := PStr doc_type]> (to_issue py_repr items)])
  | _ :: _ => (issues_found, Raise)
  end.

(** The loop over [parsed.items()]. *)
Fixpoint file_all (py_repr : json -> string) (items : list (string * json))
    (issues_found : list issue) : list issue * exn unit :=
  match items with
  | [] => (issues_found, Return tt)
  | (doc_type, issues) :: items' =>
      let issues :=
        match issues with
        | JDict _ => JList [issues]
        | _ => issues
        end in
      match iterate issues with
      | Raise => (issues_found, Raise)
      | Return ps =>
          match file_issues py_repr doc_type ps issues_found with
          | (found, Return _) => file_all py_repr items' found
          | (found, Raise) => (found, Raise)
          end
      end
  end.

(** [s[:n]] *)
Fixpoint str_take (n : nat) (s : string) : string :=
  match n, s with
  | S n', String c s' => String c (str_take n' s')
  | _, _ => EmptyString
  end.

(** The issue recorded when the answer cannot be used. *)
Definition raw_issue (gemini_response : string) : issue :=
  list_to_map
    [("document", PStr "RAG");
     ("section", PStr "RAG Analysis");
     ("issue", PStr (str_take 1000 gemini_response));
     ("severity", PStr "Low");
     ("suggestion", PStr "Manual review recommended.")].

Definition unrecognized_issue (parsed : json) : issue :=
  list_to_map
    [("document", PStr "RAG");
     ("section", PStr "RAG Analysis");
     ("issue",
      PStr ("Unrecognized Gemini response structure: " +:+ type_name parsed));
     ("severity", PStr "Low");
     ("suggestion", PStr "Manual review of Gemini output.")].

(** The dicts among the entries of a list answer. *)
Definition dict_entries (py_repr : json -> string) (l : list json)
  : list issue :=
  omap (fun p => match p with
                 | JDict items => Some (to_issue py_repr items)
                 | _ => None
                 end) l.

(** The parsing of the answer, on [issues_found].  [json_loads] is
    [json.loads]; the answer is [None] or a string. *)
Definition merge_response (json_loads : string -> exn json)
    (py_repr : json -> string) (gemini_response : option string)
    (issues_found : list issue) : list issue :=
  match gemini_response with
  | None => issues_found
  | Some response =>
      if nonempty response then
        match (do cleaned <- _clean_gemini_output (PStr response);
               json_loads cleaned) with
        | Raise => issues_found ++ [raw_issue response]
        | Return parsed =>
            match parsed with
            | JDict items =>
                match file_all py_repr items issues_found with
                | (found, Return _) => found
                | (found, Raise) => found ++ [raw_issue response]
                end
            | JList l => issues_found ++ dict_entries py_repr l
            | _ => issues_found ++ [unrecognized_issue parsed]
            end
        end
      else issues_found
  end.

End Reviewer.

Module ReviewerFacts.
Import Py Docx DocxUtils App Reviewer.

(** A value of the answer that the loop files without error: a dict, a
    list of dicts, or the empty string, which has nothing to go through. *)
Definition is_dict (v : json) : Prop :=
  match v with
  | JDict _ => True
  | _ => False
  end.

Definition usable (v : json) : Prop :=
  match v with
  | JDict _ => True
  | JList l => Forall is_dict l
  | JStr s => s = ""
  | _ => False
  end.

(** The issues that a usable value gives for the key [doc_type]. *)
Definition filed_list (py_repr : json -> string) (doc_type : string)
    (l : list json) : list issue :=
  omap (fun p => match p with
                 | JDict items =>
                     Some (<["document" := PStr doc_type]>
                             (to_issue py_repr items))
                 | _ => None
                 end) l.

Definition filed (py_repr : json -> string) (kv : string * json)
  : list issue :=
  match kv.2 with
  | JDict _ => filed_list py_repr kv.1 [kv.2]
  | JList l => filed_list py_repr kv.1 l
  | _ => []
  end.

(** A [json.loads] that answers a fixed value, and one that fails. *)
Definition loads_to (v : json) (s : string) : exn json := Return v.
Definition loads_fails (s : string) : exn json := Raise.
Definition no_repr (v : json) : string := "".

Definition sample_answer : json :=
  JDict
    [("Short Document",
      JList [JDict [("section", JStr "Jurisdiction clause");
                    ("issue", JStr "Courts are not named");
                    ("document", JStr "somewhere else")]]);
     ("Memorandum of Association",
      JDict [("section", JStr "Objects"); ("severity", JInt true "3")])].

End ReviewerFacts.

(** ** rag_utils.py: the chunks of the reference documents *)

Module Ingest.
Import Py Docx PyPath.

(** [str(n)] for a natural number. *)
Definition py_int (n : nat) : string :=
  NilEmpty.string_of_uint (Nat.to_uint n).

(** The characters of the look-behind [(?<=[\.\?\!])]. *)
Definition is_sentence_end (c : ascii) : bool :=
  bool_decide (c = "."%char) || bool_decide (c = "?"%char)
  || bool_decide (c = "!"%char).

(** [re.split(r"(?<=[\.\?\!])\s+", s)]: the text is cut at every run of
    whitespace that starts right after a sentence end; the whole run is
    dropped.  [cur] is the piece being read, [after_end] tells that the
    previous character was a sentence end, [in_sep] that a separator run
    is being skipped. *)
Fixpoint split_sentences_from (s cur : string) (after_end in_sep : bool)
  : list string :=
  match s with
  | EmptyString => [cur]
  | String c s' =>
      if is_space c && in_sep then split_sentences_from s' cur after_end true
      else if is_space c && after_end then
        cur :: split_sentences_from s' "" false true
      else
        split_sentences_from s' (cur +:+ String c "") (is_sentence_end c)
                             false
  end.

Definition split_sentences (s : string) : list string :=
  split_sentences_from s "" false false.

(** The three lists that are filled side by side. *)
Record chunks : Type := Chunks {
  docs : list string;
  metadatas : list (gmap string string);
  ids : list string
}.

(** The three appends for one chunk. *)
Definition emit (i : nat) (p current : string) (chunk_id : nat)
    (acc : chunks) : chunks :=
  Chunks (docs acc ++ [strip current])
         (metadatas acc ++ [{[ "source" := basename p ]}])
         (ids acc ++ [py_int i +:+ "_" +:+ py_int chunk_id]).

(** One iteration of the loop over the sentences, on [current],
    [chunk_id] and the lists. *)
Definition pack_step (i : nat) (p : string) (st : string * nat * chunks)
    (sent : string) : string * nat * chunks :=
  let '(current, chunk_id, acc) := st in
  if decide (String.length current + String.length sent + 1 <= 800) then
    (current +:+ sent +:+ " ", chunk_id, acc)
  else
    let '(chunk_id, acc) :=
      if nonempty (strip current)
      then (chunk_id + 1, emit i p current chunk_id acc)
      else (chunk_id, acc) in
    (sent +:+ " ", chunk_id, acc).

(** The chunks of one text. *)
Definition chunk_text (i : nat) (p text : string) (acc : chunks) : chunks :=
  let sentences := split_sentences text in
  let '(current, chunk_id, acc) :=
    fold_left (pack_step i p) sentences ("", 0, acc) in
  if nonempty (strip current) then emit i p current chunk_id acc else acc.

(** The text of a reference file.  [docx_files] is what [Document] loads
    and [text_files] what [open(p).read()] gives; either raises on a path
    it does not have. *)
Definition read_reference (docx_files : files)
    (text_files : gmap string string) (p : string) : exn string :=
  if endswith (lower p) ".docx" then
    do doc <- Document docx_files p;
    Return (join (String "010" "")
              (map text
                 (filter (fun para => nonempty (strip (text para)) = true)
                         doc)))
  else
    match text_files !! p with
    | Some s => Return s
    | None => Raise
    end.

Fixpoint gather_loop (docx_files : files) (text_files : gmap string string)
    (ips : list (nat * string)) (acc : chunks) : exn chunks :=
  match ips with
  | [] => Return acc
  | (i, p) :: ips' =>
      do text <- read_reference docx_files text_files p;
      gather_loop docx_files text_files ips' (chunk_text i p text acc)
  end.

(** The gathering of the documents in [ingest_reference_documents], from
    the paths that [glob] found to the check that chunks exist. *)
Definition gather_chunks (docx_files : files)
    (text_files : gmap string string) (paths : list string) : exn chunks :=
  match paths with
  | [] => Raise
  | _ =>
      do acc <- gather_loop docx_files text_files (enumerate paths)
                            (Chunks [] [] []);
      match docs acc with
      | [] => Raise
      | _ => Return acc
      end
  end.

End Ingest.

Module IngestFacts.
Import Py Docx PyPath Ingest Spec.

(** A text with a character that is not whitespace. *)
Definition visible (s : string) : Prop := all_chars is_space s = false.

(** The path can be read. *)
Definition readable (docx_files : files) (text_files : gmap string string)
    (p : string) : Prop :=
  exists t, read_reference docx_files text_files p = Return t.

(** The decimal digits. *)
Definition is_digit (c : ascii) : bool := between 48 57 c.

(** The identifier of chunk [k] of file [i]. *)
Definition chunk_name (ik : nat * nat) : string :=
  py_int ik.1 +:+ "_" +:+ py_int ik.2.

(** A chunk made from the sentences: stripped, not blank, and at most 800
    characters long unless it is a single sentence. *)
Definition good_chunk (sentences : list string) (c : string) : Prop :=
  strip c = c
  /\ visible c
  /\ (String.length c <= 800
      \/ exists sent, sent ∈ sentences /\ c = strip (sent +:+ " ")).

(** A chunk gathered from the reference files. *)
Definition chunk_of (docx_files : files) (text_files : gmap string string)
    (paths : list string) (c : string) : Prop :=
  strip c = c
  /\ visible c
  /\ (String.length c <= 800
      \/ exists p t sent,
           p ∈ paths /\ read_reference docx_files text_files p = Return t
           /\ sent ∈ split_sentences t /\ c = strip (sent +:+ " ")).

(** The metadata of a chunk of file [ik.1]: the base name of its path. *)
Definition source_of (paths : list string) (ik : nat * nat)
    (m : gmap string string) : Prop :=
  exists p, paths !! ik.1 = Some p /\ m = {[ "source" := basename p ]}.

(** The three lists after the first [n] files: chunk [k] of file [i] is
    named by the pair [(i, k)]. *)
Definition gathered (docx_files : files) (text_files : gmap string string)
    (paths : list string) (n : nat) (acc : chunks) : Prop :=
  exists pairs,
    ids acc = map chunk_name pairs
    /\ NoDup pairs
    /\ Forall (fun ik => ik.1 < n) pairs
    /\ Forall2 (source_of paths) pairs (metadatas acc)
    /\ length pairs = length (docs acc)
    /\ Forall (chunk_of docx_files text_files paths) (docs acc).

(** The buffer of the packing loop: at most 800 characters, or a single
    sentence and its blank. *)
Definition buffer_ok (sentences : list string) (current : string) : Prop :=
  String.length current <= 800
  \/ exists sent, sent ∈ sentences /\ current = sent +:+ " ".

(** [acc] is [acc0] with [n] chunks of file [i] added to the three
    lists. *)
Definition extends (i : nat) (p : string) (sentences : list string)
    (acc0 acc : chunks) (n : nat) : Prop :=
  exists added,
    length added = n
    /\ docs acc = docs acc0 ++ added
    /\ Forall (good_chunk sentences) added
    /\ metadatas acc
       = metadatas acc0 ++ replicate n {[ "source" := basename p ]}
    /\ ids acc = ids acc0 ++ map (fun k => chunk_name (i, k)) (seq 0 n).

Definition sample_texts : gmap string string :=
  <["refs/rules.txt" := "Companies must file. Directors sign!  Done?"]>
    {[ "refs/empty.txt" := "   " ]}.

End IngestFacts.

(** ** More sample inputs *)

Module Uploads.
Import Py Docx DocxUtils Classifier App PyPath AppFlow Samples.





End Uploads.

(** ** Properties *)

Import Py Docx DocxUtils Classifier App Spec Samples.
Import PyPath AppFlow Facts Uploads.
Import RagUtils RagFacts Reviewer ReviewerFacts Ingest IngestFacts.

(** *** Characters and strings *)

Lemma is_word_lower_char (c : ascii) : is_word (lower_char c) = is_word c.
Proof. destruct c as [[] [] [] [] [] [] [] []]; reflexivity. Qed.


Lemma non_word_lower_char (c : ascii) : non_word (lower_char c) = non_word c.
Proof. unfold non_word. by rewrite is_word_lower_char. Qed.

Lemma lower_char_idem (c : ascii) : lower_char (lower_char c) = lower_char c.
Proof. destruct c as [[] [] [] [] [] [] [] []]; reflexivity. Qed.

Lemma lower_idem (s : string) : lower (lower s) = lower s.
Proof. induction s as [|c s IH]; simpl; [done|]. by rewrite lower_char_idem, IH. Qed.

Lemma app_cons (c : ascii) (a b : string) :
  String c a +:+ b = String c (a +:+ b).
Proof. reflexivity. Qed.


Lemma lower_app (a b : string) : lower (a +:+ b) = lower a +:+ lower b.
Proof.
  induction a as [|c a IH]; [done|].
  rewrite app_cons. simpl. by rewrite app_cons, IH.
Qed.


Lemma app_empty_r (s : string) : s +:+ "" = s.
Proof. induction s as [|c s IH]; [done|]. by rewrite app_cons, IH. Qed.


(** Lowercasing before splitting on non-word runs, as the code does, gives
    the lowercased pieces of the split of the original text. *)
Lemma re_split_from_lower (s cur : string) (b : bool) :
  re_split_from non_word (lower s) (lower cur) b
  = map lower (re_split_from non_word s cur b).
Proof.
  revert cur b. induction s as [|c s IH]; intros cur b; simpl; [done|].
  rewrite non_word_lower_char.
  destruct (non_word c); simpl.
  - destruct b; simpl; rewrite <- (IH "" true); done.
  - rewrite <- IH. by rewrite lower_app.
Qed.

Lemma long_tokens_str (s : string) :
  long_tokens (PStr s) = Return (spec_tokens s).
Proof.
  unfold long_tokens, spec_tokens, or_empty, re_split. simpl.
  assert (Hs : lower_method (if nonempty s then PStr s else PStr "")
               = Return (lower s)).
  { destruct s; reflexivity. }
  rewrite Hs. simpl. f_equal.
  rewrite <- (re_split_from_lower s "" false). simpl.
  apply list_filter_iff. intros t. lia.
Qed.

(** [t in s] holds exactly when [s] is some text, then [t], then some
    text. *)
Lemma startswith_spec (s t : string) :
  startswith s t = true <-> exists b, s = t +:+ b.
Proof.
  revert s. induction t as [|c t IH]; intros s.
  - destruct s; simpl; (split; [intros _; eexists; reflexivity|done]).
  - destruct s as [|a s]; simpl.
    + split; [done|]. intros (b & Hb). by rewrite app_cons in Hb.
    + rewrite andb_true_iff, bool_decide_eq_true, IH. split.
      * intros (-> & b & ->). by exists b.
      * intros (b & Hb). rewrite app_cons in Hb.
        injection Hb as -> ->. split; [done|]. by exists b.
Qed.

Lemma str_in_spec (t s : string) :
  str_in t s = true <-> exists a b, s = a +:+ t +:+ b.
Proof.
  induction s as [|c s IH].
  - change (str_in t "") with (startswith "" t || false).
    rewrite orb_false_r, startswith_spec. split.
    + intros (b & Hb). by exists "", b.
    + intros (a & b & Hab). destruct a as [|x a]; [by exists b|].
      by rewrite app_cons in Hab.
  - change (str_in t (String c s))
      with (startswith (String c s) t || str_in t s).
    rewrite orb_true_iff, startswith_spec, IH. split.
    + intros [(b & Hb)|(a & b & Hab)].
      * by exists "", b.
      * exists (String c a), b. by rewrite app_cons, Hab.
    + intros (a & b & Hab). destruct a as [|x a].
      * left. by exists b.
      * right. rewrite app_cons in Hab. injection Hab as -> ->.
        by exists a, b.
Qed.

(** *** The paragraph lookup *)

Lemma fold_hits (pl : string) (k : nat) (toks : list string) (a : nat) :
  fold_left (fun score tok => if str_in tok pl then score + k else score)
            toks a
  = a + k * length (filter (fun t => str_in t pl = true) toks).
Proof.
  revert a. induction toks as [|t toks IH]; intros a; simpl; [lia|].
  rewrite IH, filter_cons. destruct (str_in t pl) eqn:Ht.
  - rewrite decide_True by done. simpl. lia.
  - rewrite decide_False by congruence. lia.
Qed.

Lemma paragraph_score_spec (section_label issue_text : string)
    (para : paragraph) :
  paragraph_score (spec_tokens section_label) (spec_tokens issue_text) para
  = spec_score section_label issue_text para.
Proof.
  unfold paragraph_score, spec_score.
  rewrite !fold_hits.
  change (fun t => str_in t (lower (text para)) = true) with (occurs_in para).
  rewrite Nat.add_0_l, Nat.mul_1_l. reflexivity.
Qed.

Lemma enumerate_from_snoc {A} (i : nat) (l : list A) (x : A) :
  enumerate_from i (l ++ [x]) = enumerate_from i l ++ [(i + length l, x)].
Proof.
  revert i. induction l as [|y l IH]; intros i; simpl.
  - by rewrite Nat.add_0_r.
  - rewrite IH. simpl. by rewrite Nat.add_succ_r.
Qed.

Lemma best_loop_invariant (st ist : list string) (doc : document) :
  best_so_far (paragraph_score st ist) doc
    (fold_left (best_step st ist) (enumerate doc) (None, 0)).
Proof.
  unfold enumerate.
  induction doc as [|x doc IH] using rev_ind; simpl.
  - split; [done|]. intros q Hq. by apply elem_of_nil in Hq.
  - rewrite enumerate_from_snoc, fold_left_app. simpl.
    destruct (fold_left (best_step st ist) (enumerate_from 0 doc) (None, 0))
      as [bi bs].
    set (sc := paragraph_score st ist) in *.
    unfold best_step. fold sc. unfold best_so_far in *.
    destruct (decide (bs < sc x)) as [Hlt|Hge].
    + (* a strictly better paragraph: it becomes the best *)
      exists x. simpl. split; [|split; [done|split; [lia|split]]].
      * by rewrite lookup_app_r, Nat.sub_diag.
      * intros j q Hj. apply lookup_snoc_Some in Hj as [[_ Hq]|[_ ->]]; [|done].
        destruct bi as [i|]; simpl in IH.
        -- destruct IH as (p & _ & _ & _ & Hmax & _).
           specialize (Hmax _ _ Hq). lia.
        -- destruct IH as [_ Hz]. rewrite Hz; [lia|].
           by eapply list_elem_of_lookup_2.
      * intros j q Hj Hq. rewrite lookup_app_l in Hq by done.
        destruct bi as [i|]; simpl in IH.
        -- destruct IH as (p & _ & _ & _ & Hmax & _).
           specialize (Hmax _ _ Hq). lia.
        -- destruct IH as [_ Hz]. rewrite Hz; [lia|].
           by eapply list_elem_of_lookup_2.
    + (* not better: the earlier best stays *)
      destruct bi as [i|]; simpl in *.
      * destruct IH as (p & Hp & Hsc & Hpos & Hmax & Hearly).
        exists p. split; [|split; [done|split; [done|split]]].
        -- apply lookup_app_l_Some. done.
        -- intros j q Hj.
           apply lookup_snoc_Some in Hj as [[_ Hq]|[_ ->]]; [by eauto|lia].
        -- intros j q Hj Hq.
           apply lookup_lt_Some in Hp.
           rewrite lookup_app_l in Hq by lia. by eauto.
      * destruct IH as [-> Hz]. split; [done|].
        intros q Hq. apply elem_of_app in Hq as [Hq|Hq]; [by auto|].
        apply list_elem_of_singleton in Hq as ->. lia.
Qed.

Lemma find_returns (doc : document) (section_label issue_text : string) :
  exists r,
    _find_paragraph_index_for_issue doc (PStr section_label) (PStr issue_text)
      = Return r
    /\ (forall i, r = Some i
          <-> earliest_best (spec_score section_label issue_text) doc i)
    /\ (r = None
          <-> forall q, q ∈ doc -> spec_score section_label issue_text q = 0).
Proof.
  unfold _find_paragraph_index_for_issue.
  rewrite !long_tokens_str. simpl.
  pose proof (best_loop_invariant (spec_tokens section_label)
                (spec_tokens issue_text) doc) as Hinv.
  destruct (fold_left _ _ _) as [bi bs].
  unfold best_so_far in Hinv. simpl in Hinv.
  set (sc := spec_score section_label issue_text).
  assert (Hsc : forall q, paragraph_score (spec_tokens section_label)
                   (spec_tokens issue_text) q = sc q)
    by (intros; apply paragraph_score_spec).
  destruct bi as [i|].
  - destruct Hinv as (p & Hp & Hs & Hpos & Hmax & Hearly).
    rewrite Hsc in Hs.
    rewrite decide_True by lia.
    exists (Some i). split; [done|]. split.
    + intros k. split.
      * intros [= <-]. exists p. rewrite Hs. split; [done|split; [done|split]].
        -- intros j q Hq. rewrite <- Hsc. by eauto.
        -- intros j q Hj Hq. rewrite <- Hsc. by eauto.
      * intros (p' & Hp' & Hpos' & Hmax' & Hearly').
        f_equal. destruct (Nat.lt_trichotomy i k) as [Hlt|[->|Hgt]]; [|done|].
        -- specialize (Hearly' _ _ Hlt Hp). specialize (Hmax _ _ Hp').
           rewrite Hsc in Hmax. lia.
        -- specialize (Hearly _ _ Hgt Hp'). specialize (Hmax' _ _ Hp).
           rewrite Hsc in Hearly. lia.
    + split; [done|]. intros Hz. exfalso.
      assert (sc p = 0) by (apply Hz; by eapply list_elem_of_lookup_2). lia.
  - destruct Hinv as [-> Hz].
    rewrite decide_False by lia.
    exists None. split; [done|]. split.
    + intros k. split; [done|].
      intros (p' & Hp' & Hpos' & _). exfalso.
      assert (sc p' = 0).
      { rewrite <- Hsc. apply Hz. by eapply list_elem_of_lookup_2. }
      lia.
    + split; [|done]. intros _ q Hq. rewrite <- Hsc. by apply Hz.
Qed.

Lemma find_index_in_range (doc : document) (section issue_text : pyval)
    (idx : nat) :
  _find_paragraph_index_for_issue doc section issue_text = Return (Some idx) ->
  idx < length doc.
Proof.
  unfold _find_paragraph_index_for_issue.
  destruct (long_tokens section) as [st|]; simpl; [|done].
  destruct (long_tokens issue_text) as [ist|]; simpl; [|done].
  pose proof (best_loop_invariant st ist doc) as Hinv.
  destruct (fold_left _ _ _) as [bi bs].
  destruct (decide (1 <= bs)); [|done].
  intros [= ->]. unfold best_so_far in Hinv. simpl in Hinv.
  destruct Hinv as (p & Hp & _). by eapply lookup_lt_Some.
Qed.

(** *** Insertion *)

Lemma insert_after_eq (doc : document) (idx : nat) (t : string) :
  (_insert_after_paragraph doc idx t).1
  = take (S idx) doc ++ [Run t (Some true) (Some false)] :: drop (S idx) doc.
Proof.
  unfold _insert_after_paragraph, add_run. simpl app at 1.
  set (after := [Run t (Some true) (Some false)]).
  destruct (Nat.lt_trichotomy idx (length doc)) as [Hlt|[->|Hgt]].
  - rewrite lookup_app_l by done.
    destruct (lookup_lt_is_Some_2 doc idx Hlt) as [p ->]. simpl.
    unfold addnext. rewrite length_app. simpl.
    replace (length doc + 1 - 1) with (length doc) by lia.
    rewrite list_lookup_middle by done.
    rewrite decide_False by lia. rewrite delete_middle, app_nil_r.
    rewrite decide_False by lia. done.
  - rewrite list_lookup_middle by done. simpl.
    unfold addnext. rewrite length_app. simpl.
    replace (length doc + 1 - 1) with (length doc) by lia.
    rewrite list_lookup_middle by done.
    rewrite decide_True by done.
    rewrite take_ge, drop_ge by lia. done.
  - rewrite lookup_ge_None_2 by (rewrite length_app; simpl; lia). simpl.
    rewrite take_ge, drop_ge by lia. done.
Qed.


Lemma annotate_issue_eq (doc : document) (iss : issue) :
  annotate_issue doc iss
  = match target_index doc iss with
    | Some idx => take (S idx) doc ++ targeted_note iss :: drop (S idx) doc
    | None => doc ++ [general_note iss]
    end.
Proof.
  unfold annotate_issue, target_index.
  destruct (truthy _); [|done].
  destruct (_find_paragraph_index_for_issue _ _ _) as [[idx|]|]; try done.
  simpl. apply insert_after_eq.
Qed.

Lemma annotate_issue_inserts (doc : document) (iss : issue) :
  exists l1 l2, doc = l1 ++ l2
    /\ annotate_issue doc iss = l1 ++ issue_note doc iss :: l2.
Proof.
  rewrite annotate_issue_eq. unfold issue_note.
  destruct (target_index doc iss) as [idx|].
  - exists (take (S idx) doc), (drop (S idx) doc).
    by rewrite take_drop.
  - exists doc, []. by rewrite app_nil_r.
Qed.

Lemma issue_note_of (doc : document) (iss : issue) :
  note_of iss (issue_note doc iss).
Proof.
  unfold note_of, issue_note. destruct (target_index doc iss); auto.
Qed.

Lemma annotate_cons (doc : document) (iss : issue) (rest : list issue) :
  annotate doc (iss :: rest) = annotate (annotate_issue doc iss) rest.
Proof. reflexivity. Qed.




Lemma annotate_adds_notes (doc : document) (issues : list issue) :
  exists notes,
    Forall2 note_of issues notes
    /\ annotate doc issues ≡ₚ doc ++ notes
    /\ length (annotate doc issues) = length doc + length issues.
Proof.
  revert doc. induction issues as [|iss rest IH]; intros doc.
  - exists []. simpl. by rewrite app_nil_r, Nat.add_0_r.
  - rewrite annotate_cons.
    destruct (IH (annotate_issue doc iss)) as (notes & Hn & Hp & Hl).
    destruct (annotate_issue_inserts doc iss) as (l1 & l2 & Hd & He).
    exists (issue_note doc iss :: notes). split; [|split].
    + constructor; [apply issue_note_of|done].
    + rewrite Hp, He, Hd.
      rewrite <- !app_assoc. apply Permutation_app_head.
      rewrite <- Permutation_middle. simpl. done.
    + rewrite Hl, He, Hd, !length_app. simpl. lia.
Qed.

Lemma save_and_return (fs : files) (original_path out_path : string)
    (issues : list issue) (doc : document) :
  fs !! original_path = Some doc ->
  insert_review_notes_and_save fs original_path issues out_path
  = Return (<[out_path := annotate doc issues]> fs, out_path).
Proof.
  intros Hdoc. unfold insert_review_notes_and_save, Document, save.
  by rewrite Hdoc.
Qed.




(** *** The annotation engine *)








(** C5.  On the paragraphs "ADGM Courts apply.", "Random text." and
    "Signed by director.", the issue with section "Jurisdiction clause"
    and text "Jurisdiction clause does not specify ADGM" is located at
    index 0. *)
Theorem courts_example_index :
  _find_paragraph_index_for_issue courts_doc (PStr "Jurisdiction clause")
    (PStr "Jurisdiction clause does not specify ADGM")
  = Return (Some 0).
Proof. vm_compute. reflexivity. Qed.

(** C6.  With an empty list of issues the saved document is the document
    of the input file, paragraph for paragraph: nothing is added and the
    paragraphs keep their content and order. *)
Theorem empty_issue_list_is_identity (fs : files)
    (original_path out_path : string) (doc : document) :
  fs !! original_path = Some doc ->
  annotate doc [] = doc
  /\ insert_review_notes_and_save fs original_path [] out_path
     = Return (<[out_path := doc]> fs, out_path)
  /\ (<[out_path := doc]> fs) !! out_path = Some doc.
Proof.
  intros Hdoc. split; [done|]. split.
  - by rewrite (save_and_return _ _ _ _ _ Hdoc).
  - apply lookup_insert_eq.
Qed.

Lemma empty_issue_list_is_identity_witness :
  blank_files !! "blank.docx" = Some blank_doc
  /\ annotate blank_doc [] = blank_doc
  /\ insert_review_notes_and_save blank_files "blank.docx" [] "copy.docx"
     = Return (<["copy.docx" := blank_doc]> blank_files, "copy.docx")
  /\ (<["copy.docx" := blank_doc]> blank_files) !! "copy.docx"
     = Some blank_doc.
Proof.
  split; [reflexivity|].
  apply (empty_issue_list_is_identity blank_files "blank.docx" "copy.docx"
           blank_doc).
  reflexivity.
Defined.

(** *** Tokens *)

Lemma all_chars_app (p : ascii -> bool) (a b : string) :
  all_chars p (a +:+ b) = all_chars p a && all_chars p b.
Proof.
  induction a as [|c a IH]; [done|].
  rewrite app_cons. simpl. by rewrite IH, andb_assoc.
Qed.

Lemma re_split_from_pieces (sep : ascii -> bool) (s cur : string) (b : bool) :
  all_chars (fun c => negb (sep c)) cur = true ->
  Forall (fun t => all_chars (fun c => negb (sep c)) t = true)
         (re_split_from sep s cur b).
Proof.
  revert cur b. induction s as [|c s IH]; intros cur b Hcur; simpl.
  - by constructor.
  - destruct (sep c) eqn:Hc.
    + destruct b; [by apply IH|]. constructor; [done|]. by apply IH.
    + apply IH. rewrite all_chars_app, Hcur. simpl. by rewrite Hc.
Qed.

Lemma all_chars_word_lower (t : string) :
  all_chars is_word (lower t) = all_chars is_word t.
Proof.
  induction t as [|c t IH]; simpl; [done|].
  by rewrite is_word_lower_char, IH.
Qed.

Lemma spec_tokens_shape (s : string) :
  Forall (fun t => 3 < String.length t /\ all_chars is_word t = true
                   /\ lower t = t)
         (spec_tokens s).
Proof.
  unfold spec_tokens. apply Forall_forall. intros t Ht.
  apply list_elem_of_filter in Ht as [Hlen Ht].
  apply list_elem_of_fmap in Ht as (u & -> & Hu).
  split; [lia|]. split; [|apply lower_idem].
  rewrite all_chars_word_lower.
  pose proof (re_split_from_pieces non_word s "" false eq_refl) as Hall.
  rewrite Forall_forall in Hall. specialize (Hall u Hu).
  unfold non_word in Hall.
  erewrite <- Hall. clear. induction u as [|c u IH]; simpl; [done|].
  by rewrite negb_involutive, IH.
Qed.

Lemma filter_none {A} (P : A -> Prop) `{!forall x, Decision (P x)}
    (l : list A) :
  (forall x, x ∈ l -> ~ P x) -> filter P l = [].
Proof.
  induction l as [|x l IH]; intros Hno; [done|].
  rewrite filter_cons_False by (apply Hno; left).
  apply IH. intros y Hy. apply Hno. by right.
Qed.

(** C2.  The section label and the issue text are cut into the pieces
    between runs of non-word characters, lowercased, and the pieces of
    length at most 3 are discarded: every kept token is longer than 3, made
    of word characters and in lower case.  A paragraph scores 2 for every
    section token and 1 for every issue token that occurs as a substring
    of its lowercased text.  The lookup returns the index of the earliest
    paragraph of maximal score when that score is at least 1, and none
    when every paragraph scores 0, as for an empty document or when no
    kept token occurs in any paragraph. *)
Theorem find_paragraph_index_earliest_best (doc : document)
    (section_label issue_text : string) :
  let score := spec_score section_label issue_text in
  Forall (fun t => 3 < String.length t /\ all_chars is_word t = true
                   /\ lower t = t)
         (spec_tokens section_label ++ spec_tokens issue_text)
  /\ (forall para tok,
        occurs_in para tok
        <-> exists a b, lower (text para) = a +:+ tok +:+ b)
  /\ exists r,
       _find_paragraph_index_for_issue doc (PStr section_label)
         (PStr issue_text) = Return r
       /\ (forall i, r = Some i <-> earliest_best score doc i)
       /\ (r = None <-> forall q, q ∈ doc -> score q = 0)
       /\ (doc = [] -> r = None)
       /\ ((forall q t, q ∈ doc ->
              t ∈ spec_tokens section_label ++ spec_tokens issue_text ->
              str_in t (lower (text q)) = false) ->
           r = None).
Proof.
  intros score. split.
  { apply Forall_app. split; apply spec_tokens_shape. }
  split; [intros para tok; apply str_in_spec|].
  destruct (find_returns doc section_label issue_text)
    as (r & Hr & Hsome & Hnone).
  exists r. split; [done|]. split; [done|]. split; [done|]. split.
  - intros ->. apply Hnone. intros q Hq. by apply elem_of_nil in Hq.
  - intros Hno. apply Hnone. intros q Hq.
    unfold score, spec_score.
    rewrite !filter_none; [done| |].
    + intros t Ht. unfold occurs_in.
      rewrite (Hno q t Hq); [done|]. apply elem_of_app. by right.
    + intros t Ht. unfold occurs_in.
      rewrite (Hno q t Hq); [done|]. apply elem_of_app. by left.
Qed.

(** *** Whitespace *)

Lemma lstrip_visible (s : string) :
  all_chars (fun c => negb (is_space c)) s = true -> lstrip s = s.
Proof.
  destruct s as [|c s]; simpl; [done|].
  intros H. apply andb_true_iff in H as [Hc _].
  by destruct (is_space c).
Qed.

Lemma rstrip_visible (s : string) :
  all_chars (fun c => negb (is_space c)) s = true -> rstrip s = s.
Proof.
  induction s as [|c s IH]; simpl; [done|].
  intros H. apply andb_true_iff in H as [Hc Hs].
  rewrite (IH Hs). destruct s; [|done]. by destruct (is_space c).
Qed.

Lemma strip_visible (s : string) :
  all_chars (fun c => negb (is_space c)) s = true -> strip s = s.
Proof.
  intros H. unfold strip. rewrite (lstrip_visible _ H). by apply rstrip_visible.
Qed.

Lemma nonempty_app_char (cur : string) (c : ascii) :
  nonempty (cur +:+ String c "") = true.
Proof. by destruct cur. Qed.

(** The pieces of a split on whitespace that are not blank are counted by
    the starts of the runs of visible characters.  [cur] is the piece being
    read; it holds no whitespace, and is empty inside a separator run. *)
Lemma split_count (s cur : string) (b : bool) :
  all_chars (fun c => negb (is_space c)) cur = true ->
  (b = true -> cur = "") ->
  length (filter (fun w => nonempty (strip w) = true)
                 (re_split_from is_space s cur b))
  = token_starts (negb (nonempty cur)) s + (if nonempty cur then 1 else 0).
Proof.
  revert cur b. induction s as [|c s IH]; intros cur b Hcur Hb; simpl.
  - rewrite filter_cons, (strip_visible _ Hcur).
    destruct (nonempty cur); simpl; done.
  - destruct (is_space c) eqn:Hc; simpl.
    + rewrite andb_false_r. simpl. destruct b.
      * rewrite (Hb eq_refl). simpl. by rewrite (IH "" true).
      * rewrite filter_cons, (strip_visible _ Hcur).
        destruct (nonempty cur) eqn:Hne.
        -- rewrite decide_True by done. simpl.
           rewrite (IH "" true) by done. simpl. lia.
        -- rewrite decide_False by done.
           rewrite (IH "" true) by done. simpl. lia.
    + rewrite andb_true_r.
      rewrite (IH (cur +:+ String c "") false); [| |done].
      * rewrite nonempty_app_char. simpl.
        destruct (nonempty cur); simpl; lia.
      * rewrite all_chars_app, Hcur. simpl. by rewrite Hc.
Qed.

Lemma word_count_tokens (s : string) :
  length (filter (fun w => nonempty (strip w) = true) (re_split is_space s))
  = whitespace_tokens s.
Proof.
  unfold re_split, whitespace_tokens.
  rewrite (split_count s "" false) by done. simpl. lia.
Qed.

(** *** The classifier and the process detector *)

Lemma classify_unfold (text : string) :
  classify_doc_type text = classify_by_priority text.
Proof.
  unfold classify_doc_type, classify_by_priority, priority_rules. simpl.
  repeat (destruct (re_search_words _ _); [reflexivity|]).
  rewrite word_count_tokens.
  destruct (decide (whitespace_tokens (lower text) < 40)) as [Hlt|Hge].
  - by rewrite bool_decide_eq_true_2.
  - rewrite bool_decide_eq_false_2 by done.
    by destruct (re_search_words _ _).
Qed.

(** C7.  The classifier is a function of the lowercased text: texts that
    differ only in case get the same label.  It applies
    the rules in the order Articles of Association, Memorandum of
    Association, UBO Declaration Form, Register of Members and Directors,
    Incorporation Application Form, then "Short Document" for fewer than
    40 whitespace-delimited tokens, then "Commercial Agreement / Other";
    the first rule that applies gives the label.  The sentence "This is
    the Memorandum of Association of Example Ltd." is a Memorandum of
    Association. *)
Theorem classify_doc_type_priority (text : string) :
  classify_doc_type text = classify_by_priority text
  /\ classify_doc_type (lower text) = classify_doc_type text
  /\ (forall other, lower other = lower text ->
        classify_doc_type other = classify_doc_type text)
  /\ classify_doc_type
       "This is the Memorandum of Association of Example Ltd."
     = "Memorandum of Association".
Proof.
  split; [apply classify_unfold|]. split; [|split].
  - unfold classify_doc_type. by rewrite lower_idem.
  - intros other Hother. unfold classify_doc_type. by rewrite Hother.
  - vm_compute. reflexivity.
Qed.

Lemma sum_ones {A} (l : list A) : sum_list (map (fun _ => 1) l) = length l.
Proof. induction l as [|x l IH]; simpl; [done|]. by rewrite IH. Qed.

(** C8.  The process is "Company Incorporation" exactly when at least two
    of the labels, counted with multiplicity, are among the five
    incorporation labels, and "Unknown / Other" otherwise, as for the
    empty list. *)
Theorem detect_process_counts (labels : list string) :
  let count :=
    length (filter (fun l => l ∈ incorporation_keywords) labels) in
  (detect_process labels = "Company Incorporation" <-> 2 <= count)
  /\ (detect_process labels = "Unknown / Other" <-> count < 2)
  /\ (forall l, l ∈ incorporation_keywords <->
        l ∈ ["Articles of Association"; "Memorandum of Association";
             "Incorporation Application Form"; "UBO Declaration Form";
             "Register of Members and Directors"])
  /\ detect_process [] = "Unknown / Other"
  /\ detect_process ["Articles of Association"; "Memorandum of Association"]
     = "Company Incorporation"
  /\ detect_process ["Commercial Agreement / Other"] = "Unknown / Other".
Proof.
  intros count.
  assert (Hd : detect_process labels
               = if decide (2 <= count) then "Company Incorporation"
                 else "Unknown / Other").
  { unfold detect_process, count. destruct labels as [|l labels]; [done|].
    by rewrite sum_ones. }
  split; [|split; [|split; [|split; [|split]]]].
  - rewrite Hd. destruct (decide (2 <= count)); split; try done; lia.
  - rewrite Hd. destruct (decide (2 <= count)); split; try done; lia.
  - intros l. unfold incorporation_keywords. apply elem_of_list_to_set.
  - reflexivity.
  - vm_compute. reflexivity.
  - vm_compute. reflexivity.
Qed.

(** *** The red-flag scanner *)

Lemma basic_checks_elem (acc : list issue) (d : classified) (iss : issue) :
  let text_l := lower (d_text (parsed_of d)) in
  iss ∈ basic_checks acc d <->
  iss ∈ acc
  \/ (iss = jurisdiction_issue d /\ str_in "adgm" text_l = false
      /\ str_in "abu dhabi global market" text_l = false)
  \/ (iss = signatory_issue d /\ str_in "signature" text_l = false
      /\ str_in "signed" text_l = false).
Proof.
  intros text_l. unfold basic_checks. fold text_l.
  destruct (str_in "adgm" text_l), (str_in "abu dhabi global market" text_l),
    (str_in "signature" text_l), (str_in "signed" text_l); simpl;
    rewrite ?elem_of_app, ?list_elem_of_singleton;
    intuition (auto; congruence).
Qed.

Lemma scan_elem (docs : list classified) (acc : list issue) (iss : issue) :
  iss ∈ fold_left basic_checks docs acc <->
  iss ∈ acc \/ exists d, d ∈ docs /\ iss ∈ basic_checks [] d.
Proof.
  revert acc. induction docs as [|d docs IH]; intros acc; simpl.
  - split; [by left|]. intros [H|(d & Hd & _)]; [done|].
    by apply elem_of_nil in Hd.
  - rewrite IH. rewrite (basic_checks_elem acc d iss). split.
    + intros [[H|H]|(d' & Hd' & H)].
      * by left.
      * right. exists d. split; [left|].
        apply (basic_checks_elem [] d iss). by right.
      * right. exists d'. split; [by right|done].
    + intros [H|(d' & Hd' & H)].
      * left. by left.
      * apply elem_of_cons in Hd' as [->|Hd'].
        -- apply (basic_checks_elem [] d iss) in H as [H|H];
             [by apply elem_of_nil in H|].
           left. by right.
        -- right. by exists d'.
Qed.

Lemma jurisdiction_issue_fields (d : classified) :
  jurisdiction_issue d !! "document" = Some (PStr (predicted_type d))
  /\ jurisdiction_issue d !! "section" = Some (PStr "Jurisdiction clause")
  /\ jurisdiction_issue d !! "severity" = Some (PStr "High").
Proof. repeat split; vm_compute; reflexivity. Qed.

Lemma signatory_issue_fields (d : classified) :
  signatory_issue d !! "document" = Some (PStr (predicted_type d))
  /\ signatory_issue d !! "section" = Some (PStr "Signatory section")
  /\ signatory_issue d !! "severity" = Some (PStr "Medium").
Proof. repeat split; vm_compute; reflexivity. Qed.

Lemma flag_of_doc (d : classified) (iss : issue) :
  let text_l := lower (d_text (parsed_of d)) in
  iss ∈ basic_checks [] d ->
  (iss !! "section" = Some (PStr "Jurisdiction clause") ->
     iss = jurisdiction_issue d /\ str_in "adgm" text_l = false
     /\ str_in "abu dhabi global market" text_l = false)
  /\ (iss !! "section" = Some (PStr "Signatory section") ->
     iss = signatory_issue d /\ str_in "signature" text_l = false
     /\ str_in "signed" text_l = false).
Proof.
  intros text_l Hin.
  apply (basic_checks_elem [] d iss) in Hin as [Hin|[Hin|Hin]].
  - by apply elem_of_nil in Hin.
  - destruct Hin as (-> & Hc). split; [done|].
    destruct (jurisdiction_issue_fields d) as (_ & Hs & _).
    rewrite Hs. intros [=].
  - destruct Hin as (-> & Hc). split; [|done].
    destruct (signatory_issue_fields d) as (_ & Hs & _).
    rewrite Hs. intros [=].
Qed.

(** C9.  For a document the scanner emits a High "Jurisdiction clause"
    issue exactly when neither "adgm" nor "abu dhabi global market"
    occurs in the lowercased text, and a Medium "Signatory section" issue
    exactly when neither "signature" nor "signed" occurs in it; over the
    uploaded documents, such an issue is found for a document type exactly
    when a document of that type lacks the words. *)
Theorem red_flags_iff (docs : list classified) (d : classified)
    (doc_type : string) :
  let lacks a b (x : classified) :=
    str_in a (lower (d_text (parsed_of x))) = false
    /\ str_in b (lower (d_text (parsed_of x))) = false in
  (flagged (basic_checks [] d) "Jurisdiction clause" "High"
     <-> lacks "adgm" "abu dhabi global market" d)
  /\ (flagged (basic_checks [] d) "Signatory section" "Medium"
     <-> lacks "signature" "signed" d)
  /\ (flagged_for (red_flag_scan docs) doc_type "Jurisdiction clause" "High"
     <-> exists x, x ∈ docs /\ predicted_type x = doc_type
           /\ lacks "adgm" "abu dhabi global market" x)
  /\ (flagged_for (red_flag_scan docs) doc_type "Signatory section" "Medium"
     <-> exists x, x ∈ docs /\ predicted_type x = doc_type
           /\ lacks "signature" "signed" x).
Proof.
  intros lacks. unfold lacks, flagged, flagged_for, red_flag_scan.
  split; [|split; [|split]].
  - split.
    + intros (iss & Hin & Hsec & _).
      by apply (flag_of_doc d iss Hin).
    + intros Hc. exists (jurisdiction_issue d). split.
      * apply (basic_checks_elem [] d). right. by left.
      * by destruct (jurisdiction_issue_fields d) as (_ & ? & ?).
  - split.
    + intros (iss & Hin & Hsec & _).
      by apply (flag_of_doc d iss Hin).
    + intros Hc. exists (signatory_issue d). split.
      * apply (basic_checks_elem [] d). right. by right.
      * by destruct (signatory_issue_fields d) as (_ & ? & ?).
  - split.
    + intros (iss & Hin & Hdoc & Hsec & _).
      apply scan_elem in Hin as [Hin|(x & Hx & Hin)];
        [by apply elem_of_nil in Hin|].
      destruct (proj1 (flag_of_doc x iss Hin) Hsec) as (-> & Hc).
      exists x. split; [done|]. split; [|done].
      destruct (jurisdiction_issue_fields x) as (Hd & _).
      rewrite Hd in Hdoc. by injection Hdoc.
    + intros (x & Hx & <- & Hc). exists (jurisdiction_issue x). split.
      * apply scan_elem. right. exists x. split; [done|].
        apply (basic_checks_elem [] x). right. by left.
      * apply jurisdiction_issue_fields.
  - split.
    + intros (iss & Hin & Hdoc & Hsec & _).
      apply scan_elem in Hin as [Hin|(x & Hx & Hin)];
        [by apply elem_of_nil in Hin|].
      destruct (proj2 (flag_of_doc x iss Hin) Hsec) as (-> & Hc).
      exists x. split; [done|]. split; [|done].
      destruct (signatory_issue_fields x) as (Hd & _).
      rewrite Hd in Hdoc. by injection Hdoc.
    + intros (x & Hx & <- & Hc). exists (signatory_issue x). split.
      * apply scan_elem. right. exists x. split; [done|].
        apply (basic_checks_elem [] x). right. by right.
      * apply signatory_issue_fields.
Qed.

(** *** The loader *)


Lemma all_chars_lstrip (s : string) :
  all_chars is_space (lstrip s) = all_chars is_space s.
Proof.
  induction s as [|c s IH]; simpl; [done|].
  destruct (is_space c) eqn:Hc; [done|]. simpl. by rewrite Hc.
Qed.

Lemma nonempty_rstrip (s : string) :
  nonempty (rstrip s) = negb (all_chars is_space s).
Proof.
  induction s as [|c s IH]; simpl; [done|].
  destruct (rstrip s) eqn:Hr; simpl in *.
  - destruct (is_space c); simpl; [done|reflexivity].
  - destruct (all_chars is_space s); [done|]. by rewrite andb_false_r.
Qed.

Lemma nonempty_strip (s : string) :
  nonempty (strip s) = negb (all_chars is_space s).
Proof. unfold strip. by rewrite nonempty_rstrip, all_chars_lstrip. Qed.

Lemma visible_char_iff (t : string) :
  has_visible_char t <-> all_chars is_space t = false.
Proof.
  unfold has_visible_char. split.
  - intros (a & c & b & -> & Hc).
    rewrite all_chars_app. simpl. rewrite Hc. by rewrite andb_false_r.
  - induction t as [|c t IH]; simpl; [done|].
    destruct (is_space c) eqn:Hc; simpl.
    + intros Ht. destruct (IH Ht) as (a & c' & b & -> & Hc').
      by exists (String c a), c', b.
    + intros _. by exists "", c, t.
Qed.

Lemma kept_iff (para : paragraph) :
  kept para <-> has_visible_char (text para).
Proof.
  unfold kept. rewrite visible_char_iff, nonempty_strip.
  destruct (text para) as [|c t]; simpl; [done|].
  by destruct (is_space c && all_chars is_space t).
Qed.

Lemma kept_texts (doc : document) :
  Forall (fun t => t <> "" /\ strip t <> "" /\ has_visible_char t)
         (map text (filter kept doc)).
Proof.
  apply Forall_forall. intros t Ht.
  apply list_elem_of_fmap in Ht as (para & -> & Hpara).
  apply list_elem_of_filter in Hpara as [Hk _].
  pose proof (proj1 (kept_iff para) Hk) as Hv.
  unfold kept in Hk. apply andb_true_iff in Hk as [H1 H2].
  split; [by destruct (text para)|]. split; [|done].
  by destruct (strip (text para)).
Qed.

Lemma parse_loop_returns (fs : files) (paths : list string)
    (out : list parsed) :
  (forall p, p ∈ paths -> is_Some (fs !! p)) ->
  exists res,
    parse_loop fs paths out = Return (out ++ res)
    /\ Forall2 (parsed_from fs) paths res.
Proof.
  revert out. induction paths as [|p paths IH]; intros out Hall; simpl.
  - exists []. by rewrite app_nil_r.
  - destruct (Hall p) as [doc Hdoc]; [by left|].
    unfold Document. rewrite Hdoc. simpl.
    edestruct IH as (res & Hres & Hrel).
    { intros q Hq. apply Hall. by right. }
    eexists (_ :: res). split.
    + rewrite Hres. by rewrite <- app_assoc.
    + constructor; [|done]. exists doc. done.
Qed.

(** C10, as stated, fails for the annotation engine: it does not work on
    the parsed paragraphs, it loads the file again, with every paragraph.
    The file of [blank_doc] starts with an empty paragraph, which the
    loader drops and which the document loaded for annotation has. *)
Lemma engine_sees_no_empty_fails :
  ~ engine_sees_no_empty blank_files ["blank.docx"].
Proof.
  intros Hclaim.
  specialize (Hclaim [Parsed "blank.docx" "Hello world" ["Hello world"]]
                (Parsed "blank.docx" "Hello world" ["Hello world"])
                blank_doc).
  assert (Hall : Forall (fun para => text para <> "") blank_doc).
  { apply Hclaim; [reflexivity|by left|reflexivity]. }
  apply Forall_cons in Hall as [Hfirst _]. by apply Hfirst.
Qed.

(** C10, amended.  When the files exist the loader returns, for each path
    in order, the texts of the paragraphs that have a character other than
    whitespace, in their order, and their join by newlines as full text:
    no empty or blank string is among the parsed paragraphs, from which
    the text given to the classifier is built.  The annotation engine does
    not use them: it annotates the document of the file, with all its
    paragraphs. *)
Theorem parse_keeps_visible_paragraphs (fs : files) (paths : list string) :
  (forall p, p ∈ paths -> is_Some (fs !! p)) ->
  exists out,
    parse_docx_documents fs paths = Return out
    /\ Forall2 (fun p d =>
         exists doc,
           fs !! p = Some doc
           /\ d_path d = p
           /\ d_paragraphs d = map text (filter kept doc)
           /\ d_text d = join (String "010" "") (d_paragraphs d)
           /\ (forall para, kept para <-> has_visible_char (text para))
           /\ Forall (fun t => t <> "" /\ strip t <> ""
                               /\ has_visible_char t) (d_paragraphs d)
           /\ d_paragraphs d `sublist_of` map text doc
           /\ forall issues out_path,
                insert_review_notes_and_save fs (d_path d) issues out_path
                = Return (<[out_path := annotate doc issues]> fs, out_path))
       paths out.
Proof.
  intros Hall.
  destruct (parse_loop_returns fs paths [] Hall) as (res & Hres & Hrel).
  exists res. split; [done|].
  eapply Forall2_impl; [exact Hrel|].
  intros p d (doc & Hdoc & Hp & Hparas & Htext).
  exists doc. split; [done|]. split; [done|]. split; [done|].
  split; [done|]. split; [apply kept_iff|]. split; [|split].
  - rewrite Hparas. apply kept_texts.
  - rewrite Hparas. apply (fmap_sublist text), sublist_filter.
  - intros issues out_path. rewrite Hp. by apply save_and_return.
Qed.

Lemma parse_keeps_visible_paragraphs_witness :
  (forall p, p ∈ ["blank.docx"] -> is_Some (blank_files !! p))
  /\ parse_docx_documents blank_files ["blank.docx"]
     = Return [Parsed "blank.docx" "Hello world" ["Hello world"]]
  /\ exists out,
       parse_docx_documents blank_files ["blank.docx"] = Return out
       /\ Forall2 (fun p d =>
            exists doc,
              blank_files !! p = Some doc
              /\ d_path d = p
              /\ d_paragraphs d = map text (filter kept doc)
              /\ d_text d = join (String "010" "") (d_paragraphs d)
              /\ (forall para, kept para <-> has_visible_char (text para))
              /\ Forall (fun t => t <> "" /\ strip t <> ""
                                  /\ has_visible_char t) (d_paragraphs d)
              /\ d_paragraphs d `sublist_of` map text doc
              /\ forall issues out_path,
                   insert_review_notes_and_save blank_files (d_path d) issues
                     out_path
                   = Return (<[out_path := annotate doc issues]> blank_files,
                             out_path))
          ["blank.docx"] out.
Proof.
  assert (Hall : forall p, p ∈ ["blank.docx"] -> is_Some (blank_files !! p)).
  { intros p Hp. apply list_elem_of_singleton in Hp as ->.
    exists blank_doc. reflexivity. }
  split; [exact Hall|]. split; [reflexivity|].
  exact (parse_keeps_visible_paragraphs blank_files ["blank.docx"] Hall).
Defined.

(** ** Further properties of the code *)

(** *** Insertion and lookup *)


Lemma long_tokens_raise (v : pyval) :
  long_tokens v = Raise <-> not_a_string v.
Proof.
  unfold long_tokens, or_empty, not_a_string.
  destruct v as [|s|[] r]; simpl.
  - split; [done|]. by intros (r & ?).
  - destruct (nonempty s); simpl; (split; [done|]); by intros (r & ?).
  - split; [|done]. intros _. by exists r.
  - split; [done|]. by intros (r' & ?).
Qed.

Lemma long_tokens_falsy (v : pyval) :
  truthy v = false -> long_tokens v = Return [].
Proof.
  unfold long_tokens, or_empty. intros ->. reflexivity.
Qed.

Lemma find_raise_iff (doc : document) (section issue_text : pyval) :
  _find_paragraph_index_for_issue doc section issue_text = Raise
  <-> not_a_string section \/ not_a_string issue_text.
Proof.
  rewrite <- !long_tokens_raise. unfold _find_paragraph_index_for_issue.
  destruct (long_tokens section) as [st|]; simpl; [|by intuition].
  destruct (long_tokens issue_text) as [ist|]; simpl; [|by intuition].
  destruct (fold_left _ _ _) as [bi bs].
  destruct (decide (1 <= bs)); split; try done; by intros [|].
Qed.

Lemma find_no_tokens (doc : document) :
  fold_left (best_step [] []) (enumerate doc) (None, 0) = (None, 0).
Proof.
  unfold enumerate. generalize 0 at 1.
  induction doc as [|para doc IH]; intros n; [done|].
  simpl. apply IH.
Qed.

(** X2.  The lookup raises exactly when the section label or the issue
    text is a true value that is not a string; [None] and the other false
    values count as the empty string.  A returned index lies inside the
    document, and with both labels false the answer is none. *)
Theorem find_raises_only_on_non_strings (doc : document)
    (section issue_text : pyval) :
  (_find_paragraph_index_for_issue doc section issue_text = Raise
     <-> not_a_string section \/ not_a_string issue_text)
  /\ (truthy section = false ->
        _find_paragraph_index_for_issue doc section issue_text
        = _find_paragraph_index_for_issue doc (PStr "") issue_text)
  /\ (truthy issue_text = false ->
        _find_paragraph_index_for_issue doc section issue_text
        = _find_paragraph_index_for_issue doc section (PStr ""))
  /\ (forall idx,
        _find_paragraph_index_for_issue doc section issue_text
          = Return (Some idx) -> idx < length doc)
  /\ (truthy section = false -> truthy issue_text = false ->
        _find_paragraph_index_for_issue doc section issue_text = Return None).
Proof.
  split; [apply find_raise_iff|]. split; [|split; [|split]].
  - intros Hs. unfold _find_paragraph_index_for_issue.
    by rewrite (long_tokens_falsy _ Hs).
  - intros Ht. unfold _find_paragraph_index_for_issue.
    by rewrite (long_tokens_falsy _ Ht).
  - intros idx. apply find_index_in_range.
  - intros Hs Ht. unfold _find_paragraph_index_for_issue.
    rewrite (long_tokens_falsy _ Hs), (long_tokens_falsy _ Ht). simpl.
    by rewrite find_no_tokens.
Qed.

Lemma spec_tokens_lower (s : string) :
  spec_tokens s
  = filter (fun t => ~ String.length t <= 3) (re_split non_word (lower s)).
Proof.
  unfold spec_tokens, re_split.
  by rewrite <- (re_split_from_lower s "" false).
Qed.

Lemma best_fold_scores (st ist : list string) (doc doc' : document) (n : nat)
    (acc : option nat * nat) :
  map (paragraph_score st ist) doc = map (paragraph_score st ist) doc' ->
  fold_left (best_step st ist) (enumerate_from n doc) acc
  = fold_left (best_step st ist) (enumerate_from n doc') acc.
Proof.
  revert doc' n acc. induction doc as [|para doc IH];
    intros [|para' doc'] n acc Hmap; try done.
  simpl in Hmap. injection Hmap as Hp Hrest. simpl.
  rewrite (IH doc' (S n) _ Hrest). f_equal.
  unfold best_step. destruct acc as [bi bs]. by rewrite Hp.
Qed.

Lemma scores_of_lowered_texts (st ist : list string) (doc doc' : document) :
  lowered_texts doc = lowered_texts doc' ->
  map (paragraph_score st ist) doc = map (paragraph_score st ist) doc'.
Proof.
  unfold lowered_texts. revert doc'.
  induction doc as [|para doc IH]; intros [|para' doc'] Hmap; try done.
  simpl in Hmap. injection Hmap as Hp Hrest. simpl.
  rewrite (IH doc' Hrest). f_equal.
  unfold paragraph_score. by rewrite Hp.
Qed.

(** X3.  The lookup reads the paragraphs and the two labels only up to
    letter case, and of a paragraph only its text: documents with the same
    lowercased texts and labels with the same lowercased form give the
    same answer, whatever the runs and their formatting. *)
Theorem find_reads_lowercased_text (doc doc' : document)
    (s s' t t' : string) :
  lowered_texts doc = lowered_texts doc' ->
  lower s = lower s' ->
  lower t = lower t' ->
  _find_paragraph_index_for_issue doc (PStr s) (PStr t)
  = _find_paragraph_index_for_issue doc' (PStr s') (PStr t').
Proof.
  intros Hdoc Hs Ht. unfold _find_paragraph_index_for_issue.
  rewrite !long_tokens_str. simpl.
  rewrite (spec_tokens_lower s), (spec_tokens_lower t), Hs, Ht.
  rewrite <- (spec_tokens_lower s'), <- (spec_tokens_lower t').
  unfold enumerate.
  by rewrite (best_fold_scores _ _ doc doc' 0 _
                (scores_of_lowered_texts _ _ _ _ Hdoc)).
Qed.

Lemma find_reads_lowercased_text_witness :
  lowered_texts courts_doc
  = lowered_texts
      [[Run "ADGM " None (Some true); Run "COURTS apply." None None];
       plain "RANDOM TEXT."; plain "signed by Director."]
  /\ lower "Jurisdiction clause" = lower "JURISDICTION Clause"
  /\ lower "Jurisdiction clause does not specify ADGM"
     = lower "jurisdiction clause does not specify adgm"
  /\ _find_paragraph_index_for_issue courts_doc (PStr "Jurisdiction clause")
       (PStr "Jurisdiction clause does not specify ADGM")
     = _find_paragraph_index_for_issue
         [[Run "ADGM " None (Some true); Run "COURTS apply." None None];
          plain "RANDOM TEXT."; plain "signed by Director."]
         (PStr "JURISDICTION Clause")
         (PStr "jurisdiction clause does not specify adgm").
Proof.
  split; [reflexivity|]. split; [reflexivity|]. split; [reflexivity|].
  apply find_reads_lowercased_text; reflexivity.
Defined.

(** *** Annotation runs *)






(** *** The loader, again *)

Lemma parse_loop_raise (fs : files) (paths : list string) (out : list parsed) :
  parse_loop fs paths out = Raise <-> exists p, p ∈ paths /\ fs !! p = None.
Proof.
  revert out. induction paths as [|p paths IH]; intros out; simpl.
  - split; [done|]. intros (p & Hp & _). by apply elem_of_nil in Hp.
  - unfold Document. destruct (fs !! p) as [doc|] eqn:Hdoc; simpl.
    + rewrite IH. split.
      * intros (x & Hx & Hnone). exists x. split; [by right|done].
      * intros (x & Hx & Hnone).
        apply elem_of_cons in Hx as [->|Hx]; [congruence|by exists x].
    + split; [|done]. intros _. exists p. split; [by left|done].
Qed.

Lemma parse_loop_paths (fs : files) (paths : list string)
    (out res : list parsed) :
  parse_loop fs paths out = Return res ->
  map d_path res = map d_path out ++ paths.
Proof.
  revert out. induction paths as [|p paths IH]; intros out; simpl.
  - intros [= ->]. by rewrite app_nil_r.
  - unfold Document. destruct (fs !! p) as [doc|]; simpl; [|done].
    intros Hres. rewrite (IH _ Hres), map_app. simpl.
    by rewrite <- app_assoc.
Qed.

(** X7.  The loader raises exactly when one of the paths has no file, and
    then gives nothing for the other files either.  When it returns there
    is one entry per path, in the order of the paths. *)
Theorem parse_raises_iff_missing (fs : files) (paths : list string) :
  (parse_docx_documents fs paths = Raise
     <-> exists p, p ∈ paths /\ fs !! p = None)
  /\ forall out,
       parse_docx_documents fs paths = Return out ->
       map d_path out = paths /\ length out = length paths.
Proof.
  unfold parse_docx_documents. split; [apply parse_loop_raise|].
  intros out Hout. pose proof (parse_loop_paths _ _ _ _ Hout) as Hp.
  simpl in Hp. split; [done|]. by rewrite <- Hp, length_map.
Qed.

Lemma filter_sublist_mono {A} (P : A -> Prop) `{!forall x, Decision (P x)}
    (l1 l2 : list A) :
  l1 `sublist_of` l2 -> filter P l1 `sublist_of` filter P l2.
Proof.
  induction 1 as [|x l1 l2 _ IH|x l1 l2 _ IH]; [done| |].
  - rewrite !filter_cons. destruct (decide (P x)); [by constructor|done].
  - rewrite filter_cons. destruct (decide (P x)); [by constructor|done].
Qed.






(** *** The classifier and the process detector, again *)

Ltac in_list := repeat (first [left; reflexivity | right]).

Lemma classify_cases (text : string) :
  classify_doc_type text ∈
    ["Articles of Association"; "Memorandum of Association";
     "UBO Declaration Form"; "Register of Members and Directors";
     "Incorporation Application Form"]
  \/ (classify_doc_type text = "Short Document"
      /\ whitespace_tokens (lower text) < 40)
  \/ (classify_doc_type text = "Commercial Agreement / Other"
      /\ 40 <= whitespace_tokens (lower text)).
Proof.
  unfold classify_doc_type. rewrite word_count_tokens.
  do 5 (destruct (re_search_words _ (lower text));
        [left; apply list_elem_of_In; simpl; in_list|]).
  destruct (decide (whitespace_tokens (lower text) < 40)).
  - right. left. split; [reflexivity|done].
  - right. right. destruct (re_search_words _ _); (split; [reflexivity|lia]).
Qed.

(** X9.  The classifier answers one of its seven labels.  "Short Document"
    is only given below 40 whitespace-delimited tokens and "Commercial
    Agreement / Other" only from 40 tokens on; every other answer is one
    of the five labels that count towards an incorporation. *)
Theorem classify_labels_closed (text : string) :
  classify_doc_type text ∈ doc_labels
  /\ (classify_doc_type text = "Short Document" ->
        whitespace_tokens (lower text) < 40)
  /\ (classify_doc_type text = "Commercial Agreement / Other" ->
        40 <= whitespace_tokens (lower text))
  /\ (classify_doc_type text ∈ incorporation_keywords
        <-> classify_doc_type text <> "Short Document"
            /\ classify_doc_type text <> "Commercial Agreement / Other").
Proof.
  assert (Hkw : forall l, l ∈ incorporation_keywords <->
            In l ["Articles of Association"; "Memorandum of Association";
                  "Incorporation Application Form"; "UBO Declaration Form";
                  "Register of Members and Directors"]).
  { intros l. unfold incorporation_keywords.
    by rewrite elem_of_list_to_set, list_elem_of_In. }
  rewrite Hkw. unfold doc_labels.
  destruct (classify_cases text) as [Hfive|[[-> Hlt]|[-> Hge]]].
  - apply list_elem_of_In in Hfive. simpl in Hfive.
    destruct Hfive as [<-|[<-|[<-|[<-|[<-|[]]]]]];
      (split; [apply list_elem_of_In; simpl; in_list|]);
      (split; [done|]); (split; [done|]);
      (split; [done|intros _; simpl; in_list]).
  - split; [apply list_elem_of_In; simpl; in_list|].
    split; [done|]. split; [done|]. split.
    + simpl. intuition discriminate.
    + by intros [? _].
  - split; [apply list_elem_of_In; simpl; in_list|].
    split; [done|]. split; [done|]. split.
    + simpl. intuition discriminate.
    + by intros [_ ?].
Qed.

Lemma count_permutation (l1 l2 : list string) :
  l1 ≡ₚ l2 ->
  length (filter (fun l => l ∈ incorporation_keywords) l1)
  = length (filter (fun l => l ∈ incorporation_keywords) l2).
Proof. intros Hp. by rewrite Hp. Qed.

Lemma detect_process_by_count (labels : list string) :
  detect_process labels
  = if decide (2 <= length (filter (fun l => l ∈ incorporation_keywords)
                                   labels))
    then "Company Incorporation" else "Unknown / Other".
Proof.
  unfold detect_process. destruct labels as [|l labels]; [done|].
  by rewrite sum_ones.
Qed.

(** X11.  The detected process does not depend on the order of the
    labels nor on labels outside the incorporation set, and further
    uploads never undo a detected incorporation.  Two documents with the
    same incorporation label are enough. *)
Theorem detect_process_order_and_noise (l1 l2 extra : list string)
    (label : string) :
  (l1 ≡ₚ l2 -> detect_process l1 = detect_process l2)
  /\ detect_process (filter (fun l => l ∈ incorporation_keywords) l1)
     = detect_process l1
  /\ (detect_process l1 = "Company Incorporation" ->
        detect_process (l1 ++ extra) = "Company Incorporation")
  /\ (label ∈ incorporation_keywords ->
        detect_process [label; label] = "Company Incorporation").
Proof.
  split; [|split; [|split]].
  - intros Hp. rewrite !detect_process_by_count.
    by rewrite (count_permutation _ _ Hp).
  - rewrite !detect_process_by_count. by rewrite list_filter_filter_l.
  - rewrite !detect_process_by_count, filter_app, length_app.
    destruct (decide (2 <= length (filter _ l1))); [|done].
    intros _. by rewrite decide_True by lia.
  - intros Hl. rewrite detect_process_by_count.
    by rewrite !filter_cons_True by done.
Qed.

(** *** The checklist and the routing of the issues *)

(** X12.  The checklist is empty unless an incorporation is detected.
    For an incorporation five documents are required; the missing ones are
    exactly the required labels that no upload has, at most four of them,
    and none exactly when every required label was uploaded. *)
Theorem checklist_of_missing_documents (docs : list classified) :
  let uploaded := uploaded_doc_types docs in
  let process := detect_process uploaded in
  let required := required_docs process in
  (forall r, r ∈ missing required uploaded <-> r ∈ required /\ r ∉ uploaded)
  /\ (process <> "Company Incorporation" ->
        required = [] /\ missing required uploaded = [])
  /\ (process = "Company Incorporation" ->
        length required = 5
        /\ length (missing required uploaded) <= 4
        /\ (missing required uploaded = []
              <-> forall r, r ∈ required -> r ∈ uploaded)).
Proof.
  intros uploaded process required.
  split; [|split].
  - intros r. unfold missing. rewrite list_elem_of_filter. tauto.
  - intros Hp. unfold required, required_docs.
    by rewrite decide_False by done.
  - intros Hp. unfold required, required_docs.
    rewrite decide_True by done. split; [done|]. split.
    + (* some upload is a required document *)
      assert (Hc : 2 <= length (filter (fun l => l ∈ incorporation_keywords)
                                      uploaded)).
      { unfold process in Hp. rewrite detect_process_by_count in Hp.
        by destruct (decide (2 <= _)). }
      destruct (filter (fun l => l ∈ incorporation_keywords) uploaded)
        as [|l ls] eqn:Hf; [simpl in Hc; lia|].
      assert (Hl : l ∈ filter (fun l => l ∈ incorporation_keywords) uploaded)
        by (rewrite Hf; left).
      apply list_elem_of_filter in Hl as [Hkw Hup].
      apply elem_of_list_to_set in Hkw.
      unfold missing.
      pose proof (length_filter_lt (fun r => r ∉ uploaded) _ l Hkw) as Hlt.
      simpl in Hlt. apply Nat.lt_succ_r, Hlt. by intros Hn.
    + unfold missing. split.
      * intros Hnil r Hr. destruct (decide (r ∈ uploaded)); [done|].
        exfalso. by eapply (filter_nil_not_elem_of _ _ r Hnil).
      * intros Hall. apply filter_none. intros r Hr Hn. by apply Hn, Hall.
Qed.

Lemma document_field (iss : issue) (ty : string) :
  get iss "document" PNone = PStr ty <-> iss !! "document" = Some (PStr ty).
Proof.
  unfold get. destruct (iss !! "document") as [v|]; simpl.
  - split; congruence.
  - split; congruence.
Qed.

(** X13.  The issues are routed by document type, not by file: a
    document is reviewed with exactly the found issues whose "document"
    entry is its predicted type, so two files of the same type are
    reviewed with the same issues, and an issue filed under "RAG" is
    written into no classified document. *)
Theorem issues_are_routed_by_type (issues_found : list issue)
    (d d' : classified) (p : parsed) :
  (forall iss,
     iss ∈ doc_issues issues_found d
     <-> iss ∈ issues_found
         /\ iss !! "document" = Some (PStr (predicted_type d)))
  /\ (predicted_type d = predicted_type d' ->
        doc_issues issues_found d = doc_issues issues_found d')
  /\ (forall iss,
        iss ∈ doc_issues issues_found
                (Classified p (classify_doc_type (d_text p))) ->
        iss !! "document" <> Some (PStr "RAG")).
Proof.
  split; [|split].
  - intros iss. unfold doc_issues.
    rewrite list_elem_of_filter, document_field. tauto.
  - intros Hty. unfold doc_issues. by rewrite Hty.
  - intros iss Hin. unfold doc_issues in Hin.
    apply list_elem_of_filter in Hin as [Hdoc _].
    apply document_field in Hdoc. simpl in Hdoc. rewrite Hdoc.
    intros [= Hrag].
    destruct (classify_cases (d_text p)) as [Hfive|[[Hl _]|[Hl _]]].
    + rewrite Hrag in Hfive. apply list_elem_of_In in Hfive.
      simpl in Hfive. intuition discriminate.
    + by rewrite Hrag in Hl.
    + by rewrite Hrag in Hl.
Qed.

(** *** The issues found without reviewer *)

Lemma basic_checks_app (acc : list issue) (d : classified) :
  basic_checks acc d = acc ++ basic_checks [] d.
Proof.
  unfold basic_checks.
  destruct (negb _ && negb _), (negb _ && negb _); simpl;
    by rewrite ?app_nil_r, <- ?app_assoc.
Qed.

Lemma red_flag_fold_concat (docs : list classified) (acc : list issue) :
  fold_left basic_checks docs acc
  = acc ++ concat (map (basic_checks []) docs).
Proof.
  revert acc. induction docs as [|d docs IH]; intros acc; simpl.
  - by rewrite app_nil_r.
  - rewrite IH, (basic_checks_app acc d). by rewrite <- app_assoc.
Qed.

Lemma mark_unavailable_eq (docs : list classified) (acc : list issue) :
  mark_unavailable acc docs = acc ++ map unavailable_issue docs.
Proof.
  unfold mark_unavailable. revert acc.
  induction docs as [|d docs IH]; intros acc; simpl.
  - by rewrite app_nil_r.
  - rewrite IH. by rewrite <- app_assoc.
Qed.

Lemma basic_checks_length (d : classified) : length (basic_checks [] d) <= 2.
Proof.
  unfold basic_checks.
  destruct (negb _ && negb _), (negb _ && negb _); simpl; lia.
Qed.

Lemma concat_length_bound {A B} (f : A -> list B) (k : nat) (l : list A) :
  (forall x, length (f x) <= k) ->
  length (concat (map f l)) <= k * length l.
Proof.
  intros Hk. induction l as [|x l IH]; simpl; [lia|].
  rewrite length_app. specialize (Hk x). lia.
Qed.

Lemma sublist_of_concat {A B} (f : A -> list B) (l : list A) (x : A) :
  x ∈ l -> f x `sublist_of` concat (map f l).
Proof.
  induction l as [|y l IH]; intros Hx; [by apply elem_of_nil in Hx|].
  simpl. apply elem_of_cons in Hx as [->|Hx].
  - by apply sublist_inserts_r.
  - by apply sublist_inserts_l, IH.
Qed.

Lemma elem_of_concat_map {A B} (f : A -> list B) (l : list A) (y : B) :
  y ∈ concat (map f l) <-> exists x, x ∈ l /\ y ∈ f x.
Proof.
  induction l as [|x l IH]; simpl.
  - split; [by intros ?%elem_of_nil|]. by intros (x & ?%elem_of_nil & _).
  - rewrite elem_of_app, IH. split.
    + intros [Hy|(x' & Hx' & Hy)].
      * exists x. split; [left|done].
      * exists x'. split; [by right|done].
    + intros (x' & Hx' & Hy). apply elem_of_cons in Hx' as [->|Hx'].
      * by left.
      * right. by exists x'.
Qed.

Lemma unavailable_issue_fields (d : classified) :
  unavailable_issue d !! "document" = Some (PStr (predicted_type d))
  /\ unavailable_issue d !! "section" = Some (PStr "RAG Analysis")
  /\ unavailable_issue d !! "severity" = Some (PStr "Low").
Proof. repeat split; vm_compute; reflexivity. Qed.

Lemma basic_checks_own_type (d : classified) (iss : issue) :
  iss ∈ basic_checks [] d ->
  get iss "document" PNone = PStr (predicted_type d).
Proof.
  intros Hin. apply document_field.
  apply (basic_checks_elem [] d iss) in Hin as [Hin|[[-> _]|[-> _]]].
  - by apply elem_of_nil in Hin.
  - apply jurisdiction_issue_fields.
  - apply signatory_issue_fields.
Qed.

Lemma filter_all {A} (P : A -> Prop) `{!forall x, Decision (P x)}
    (l : list A) :
  (forall x, x ∈ l -> P x) -> filter P l = l.
Proof.
  induction l as [|x l IH]; intros Hall; [done|].
  rewrite filter_cons_True by (apply Hall; left).
  rewrite IH; [done|]. intros y Hy. apply Hall. by right.
Qed.

(** X14.  No finding of the rule-based checks is lost on the way to the
    document: when no reviewer is available, every document is reviewed
    with its own findings, in their order, and with its unavailability
    notice, so its reviewed copy has at least one more paragraph than the
    original for each of them. *)
Theorem own_findings_reach_the_document (docs : list classified)
    (d : classified) (fs : files) (doc : document) (out_path : string) :
  d ∈ docs ->
  fs !! d_path (parsed_of d) = Some doc ->
  basic_checks [] d `sublist_of` doc_issues (rule_based_issues docs) d
  /\ unavailable_issue d ∈ doc_issues (rule_based_issues docs) d
  /\ exists out,
       review fs (rule_based_issues docs) d out_path
       = Return (<[out_path := out]> fs, out_path)
       /\ length doc + length (basic_checks [] d) + 1 <= length out.
Proof.
  intros Hd Hdoc.
  assert (Hrule : rule_based_issues docs
            = concat (map (basic_checks []) docs)
              ++ map unavailable_issue docs).
  { unfold rule_based_issues, red_flag_scan.
    by rewrite mark_unavailable_eq, red_flag_fold_concat. }
  assert (Hsub : basic_checks [] d
                 `sublist_of` doc_issues (rule_based_issues docs) d).
  { rewrite <- (filter_all
                 (fun i => get i "document" PNone = PStr (predicted_type d))
                 (basic_checks [] d)) by apply basic_checks_own_type.
    unfold doc_issues. apply filter_sublist_mono. rewrite Hrule.
    by apply sublist_inserts_r, sublist_of_concat. }
  assert (Hun : unavailable_issue d ∈ doc_issues (rule_based_issues docs) d).
  { unfold doc_issues. apply list_elem_of_filter. split.
    - apply document_field, unavailable_issue_fields.
    - rewrite Hrule. apply elem_of_app. right.
      apply list_elem_of_fmap. by exists d. }
  split; [done|]. split; [done|].
  exists (annotate doc (doc_issues (rule_based_issues docs) d)).
  split; [by apply save_and_return|].
  destruct (annotate_adds_notes doc (doc_issues (rule_based_issues docs) d))
    as (notes & _ & _ & ->).
  (* the own findings and the notice are distinct entries of the issues *)
  assert (Hlen : length (basic_checks [] d) + 1
                 <= length (doc_issues (rule_based_issues docs) d)).
  { unfold doc_issues. rewrite Hrule, filter_app, length_app.
    assert (H1 : length (basic_checks [] d)
                 <= length (filter
                      (fun i => get i "document" PNone
                                = PStr (predicted_type d))
                      (concat (map (basic_checks []) docs)))).
    { apply sublist_length.
      rewrite <- (filter_all
                 (fun i => get i "document" PNone = PStr (predicted_type d))
                 (basic_checks [] d)) at 1 by apply basic_checks_own_type.
      by apply filter_sublist_mono, sublist_of_concat. }
    assert (H2 : 1 <= length (filter
                      (fun i => get i "document" PNone
                                = PStr (predicted_type d))
                      (map unavailable_issue docs))).
    { assert (Hin : unavailable_issue d ∈
                filter (fun i => get i "document" PNone
                                 = PStr (predicted_type d))
                       (map unavailable_issue docs)).
      { apply list_elem_of_filter. split.
        - apply document_field, unavailable_issue_fields.
        - apply list_elem_of_fmap. by exists d. }
      destruct (filter _ (map unavailable_issue docs));
        [by apply elem_of_nil in Hin|simpl; lia]. }
    lia. }
  lia.
Qed.

Lemma own_findings_reach_the_document_witness :
  dubai_entry ∈ [dubai_entry]
  /\ dubai_files !! d_path (parsed_of dubai_entry) = Some dubai_doc
  /\ basic_checks [] dubai_entry
     `sublist_of` doc_issues (rule_based_issues [dubai_entry]) dubai_entry
  /\ unavailable_issue dubai_entry
     ∈ doc_issues (rule_based_issues [dubai_entry]) dubai_entry
  /\ exists out,
       review dubai_files (rule_based_issues [dubai_entry]) dubai_entry
         "reviewed_dubai.docx"
       = Return (<["reviewed_dubai.docx" := out]> dubai_files,
                 "reviewed_dubai.docx")
       /\ length dubai_doc + length (basic_checks [] dubai_entry) + 1
          <= length out.
Proof.
  assert (H1 : dubai_entry ∈ [dubai_entry]) by left.
  assert (H2 : dubai_files !! d_path (parsed_of dubai_entry) = Some dubai_doc)
    by reflexivity.
  split; [exact H1|]. split; [exact H2|].
  exact (own_findings_reach_the_document [dubai_entry] dubai_entry
           dubai_files dubai_doc "reviewed_dubai.docx" H1 H2).
Defined.

(** X15.  Without reviewer the issues are the findings of the basic
    checks, document after document, followed by one Low "RAG Analysis"
    notice per document in upload order: between one and three issues per
    uploaded document. *)
Theorem rule_based_issues_shape (docs : list classified) :
  rule_based_issues docs
  = concat (map (basic_checks []) docs) ++ map unavailable_issue docs
  /\ length docs <= length (rule_based_issues docs)
  /\ length (rule_based_issues docs) <= 3 * length docs
  /\ filter (fun iss => iss !! "section" = Some (PStr "RAG Analysis"))
            (rule_based_issues docs)
     = map unavailable_issue docs.
Proof.
  assert (Hrule : rule_based_issues docs
            = concat (map (basic_checks []) docs)
              ++ map unavailable_issue docs).
  { unfold rule_based_issues, red_flag_scan.
    by rewrite mark_unavailable_eq, red_flag_fold_concat. }
  split; [done|]. rewrite Hrule, length_app, length_map.
  pose proof (concat_length_bound (basic_checks []) 2 docs
                basic_checks_length) as Hb.
  split; [lia|]. split; [lia|].
  rewrite filter_app, filter_none, filter_all; [done| |].
  - intros iss Hin. apply list_elem_of_fmap in Hin as (d & -> & _).
    apply unavailable_issue_fields.
  - intros iss Hin Hsec.
    apply elem_of_concat_map in Hin as (d & _ & Hiss).
    apply (basic_checks_elem [] d iss) in Hiss as [Hiss|[[-> _]|[-> _]]].
    + by apply elem_of_nil in Hiss.
    + destruct (jurisdiction_issue_fields d) as (_ & Hs & _).
      rewrite Hs in Hsec. discriminate.
    + destruct (signatory_issue_fields d) as (_ & Hs & _).
      rewrite Hs in Hsec. discriminate.
Qed.

(** *** The review loop *)














(** *** Keyword patterns *)

Lemma length_app_str (a b : string) :
  String.length (a +:+ b) = String.length a + String.length b.
Proof. induction a as [|c a IH]; [done|]. rewrite app_cons. simpl. by rewrite IH. Qed.

Lemma get_app_r (pre rest : string) (k : nat) :
  String.get (String.length pre + k) (pre +:+ rest) = String.get k rest.
Proof. induction pre as [|c pre IH]; [done|]. rewrite app_cons. simpl. apply IH. Qed.

Lemma word_at_app (pre rest : string) :
  word_at (pre +:+ rest) (String.length pre) = word_char (first_char rest).
Proof.
  unfold word_at.
  rewrite <- (Nat.add_0_r (String.length pre)), get_app_r.
  by destruct rest.
Qed.

Lemma word_before_app (pre rest : string) :
  match String.length pre with
  | 0 => false
  | S j => word_at (pre +:+ rest) j
  end = word_char (last_char pre).
Proof.
  induction pre as [|c pre IH]; [done|].
  rewrite app_cons. destruct pre as [|c' pre]; [done|].
  simpl in IH. simpl. exact IH.
Qed.

Lemma word_boundary_app (pre rest : string) :
  word_boundary (pre +:+ rest) (String.length pre)
  = xorb (word_char (last_char pre)) (word_char (first_char rest)).
Proof. unfold word_boundary. by rewrite word_before_app, word_at_app. Qed.

Lemma substring_app_r (pre rest : string) (m : nat) :
  substring (String.length pre) m (pre +:+ rest) = substring 0 m rest.
Proof. induction pre as [|c pre IH]; [done|]. rewrite app_cons. simpl. apply IH. Qed.

Lemma eqb_prefix (rest lit : string) :
  String.eqb (substring 0 (String.length lit) rest) lit = startswith rest lit.
Proof.
  revert rest. induction lit as [|b lit IH]; intros rest.
  - by destruct rest.
  - destruct rest as [|a rest]; [done|]. simpl. rewrite IH. f_equal.
    destruct (Ascii.eqb_spec a b) as [->|Hne].
    + by rewrite bool_decide_eq_true_2.
    + by rewrite bool_decide_eq_false_2.
Qed.

Lemma literal_at_app (pre rest lit : string) :
  literal_at (pre +:+ rest) (String.length pre) lit = startswith rest lit.
Proof. unfold literal_at. by rewrite substring_app_r, eqb_prefix. Qed.

Lemma split_at (s : string) (i : nat) :
  i <= String.length s ->
  exists pre rest, s = pre +:+ rest /\ String.length pre = i.
Proof.
  revert i. induction s as [|c s IH]; intros i Hi.
  - exists "", "". simpl in *. split; [done|lia].
  - destruct i as [|i].
    + by exists "", (String c s).
    + destruct (IH i) as (pre & rest & -> & Hlen); [simpl in Hi; lia|].
      exists (String c pre), rest. split; [done|]. simpl. by rewrite Hlen.
Qed.

Lemma first_char_app (lit post : string) :
  word_char (first_char lit) = true ->
  first_char (lit +:+ post) = first_char lit.
Proof. by destruct lit. Qed.

Lemma last_char_app (pre lit : string) :
  word_char (last_char lit) = true ->
  last_char (pre +:+ lit) = last_char lit.
Proof.
  intros Hl. induction pre as [|c pre IH]; [done|].
  rewrite app_cons. simpl. rewrite IH.
  destruct (pre +:+ lit) eqn:Hpl; [|done].
  destruct pre, lit; try done.
Qed.

Lemma match_at_spec (alts : list string) (pre rest : string) :
  Forall keyword alts ->
  match_at alts (pre +:+ rest) (String.length pre) = true
  <-> exists lit post,
        lit ∈ alts /\ rest = lit +:+ post
        /\ word_char (last_char pre) = false
        /\ word_char (first_char post) = false.
Proof.
  intros Hkw. rewrite Forall_forall in Hkw.
  unfold match_at. rewrite andb_true_iff, existsb_exists. split.
  - intros (Hb & lit & Hin & Hlit).
    apply list_elem_of_In in Hin. destruct (Hkw lit Hin) as [Hf Hl].
    apply andb_true_iff in Hlit as [Hat Hb2].
    rewrite literal_at_app in Hat.
    apply startswith_spec in Hat as (post & ->).
    exists lit, post. split; [done|]. split; [done|].
    rewrite word_boundary_app, (first_char_app _ _ Hf), Hf in Hb.
    split; [by destruct (word_char (last_char pre))|].
    replace (pre +:+ lit +:+ post) with ((pre +:+ lit) +:+ post) in Hb2.
    + rewrite <- length_app_str, word_boundary_app in Hb2.
      rewrite (last_char_app _ _ Hl), Hl in Hb2.
      by destruct (word_char (first_char post)).
    + clear. induction pre as [|c pre IH]; [done|]. by rewrite !app_cons, IH.
  - intros (lit & post & Hin & -> & Hpre & Hpost).
    destruct (Hkw lit Hin) as [Hf Hl]. split.
    + by rewrite word_boundary_app, (first_char_app _ _ Hf), Hf, Hpre.
    + exists lit. split; [by apply list_elem_of_In|].
      rewrite literal_at_app. apply andb_true_iff. split.
      * apply startswith_spec. by exists post.
      * replace (pre +:+ lit +:+ post) with ((pre +:+ lit) +:+ post).
        -- rewrite <- length_app_str, word_boundary_app.
           by rewrite (last_char_app _ _ Hl), Hl, Hpost.
        -- clear. induction pre as [|c pre IH]; [done|].
           by rewrite !app_cons, IH.
Qed.

Lemma re_search_words_spec (alts : list string) (s : string) :
  Forall keyword alts ->
  re_search_words alts s = true <-> exists lit, lit ∈ alts /\ whole_word lit s.
Proof.
  intros Hkw. unfold re_search_words, whole_word.
  rewrite existsb_exists. split.
  - intros (i & Hi & Hm). apply in_seq in Hi.
    destruct (split_at s i) as (pre & rest & -> & <-); [lia|].
    apply (match_at_spec _ _ _ Hkw) in Hm
      as (lit & post & Hin & -> & Hpre & Hpost).
    exists lit. split; [done|]. by exists pre, post.
  - intros (lit & Hin & pre & post & -> & Hpre & Hpost).
    exists (String.length pre). split.
    + apply in_seq. rewrite length_app_str. lia.
    + apply (match_at_spec _ _ _ Hkw). by exists lit, post.
Qed.

(** X10.  The keyword rules match whole words of the lowercased text.  A
    text is an "Articles of Association" exactly when "aoa", "articles of
    association" or "article of association" occurs in it with no word
    character right before or after; it is a "Memorandum of Association"
    exactly when none of these does and "moa", "memorandum of association"
    or "memorandum" occurs so. *)
Theorem keyword_rules_match_whole_words (text : string) :
  let articles :=
    ["aoa"; "articles of association"; "article of association"] in
  let memorandum := ["moa"; "memorandum of association"; "memorandum"] in
  (classify_doc_type text = "Articles of Association"
     <-> exists lit, lit ∈ articles /\ whole_word lit (lower text))
  /\ (classify_doc_type text = "Memorandum of Association"
     <-> (~ exists lit, lit ∈ articles /\ whole_word lit (lower text))
         /\ exists lit, lit ∈ memorandum /\ whole_word lit (lower text)).
Proof.
  intros articles memorandum.
  assert (Ha : Forall keyword articles) by (repeat constructor).
  assert (Hm : Forall keyword memorandum) by (repeat constructor).
  rewrite <- (re_search_words_spec articles (lower text) Ha).
  rewrite <- (re_search_words_spec memorandum (lower text) Hm).
  unfold classify_doc_type. fold articles. fold memorandum.
  destruct (re_search_words articles (lower text)).
  - split; [done|]. split; [done|]. by intros [? _].
  - destruct (re_search_words memorandum (lower text)).
    + split; [done|]. split; [|done]. intros _. split; [|done]. discriminate.
    + split.
      * split; [|done].
        do 3 (destruct (re_search_words _ (lower text)); [done|]).
        destruct (decide _); [done|]. by destruct (re_search_words _ _).
      * split; [|by intros [_ ?]].
        do 3 (destruct (re_search_words _ (lower text)); [done|]).
        destruct (decide _); [done|]. by destruct (re_search_words _ _).
Qed.

(** *** Stripping *)

Lemma lstrip_first (s : string) : space_char (first_char (lstrip s)) = false.
Proof.
  induction s as [|c s IH]; simpl; [done|].
  destruct (is_space c) eqn:Hc; [done|]. simpl. exact Hc.
Qed.

Lemma lstrip_fix (s : string) :
  space_char (first_char s) = false -> lstrip s = s.
Proof. destruct s as [|c s]; simpl; [done|]. by intros ->. Qed.

Lemma rstrip_last (s : string) : space_char (last_char (rstrip s)) = false.
Proof.
  induction s as [|c s IH]; simpl; [done|].
  destruct (rstrip s) as [|c' r] eqn:Hr.
  - destruct (is_space c) eqn:Hc; [done|]. simpl. exact Hc.
  - exact IH.
Qed.

Lemma rstrip_fix (s : string) :
  space_char (last_char s) = false -> rstrip s = s.
Proof.
  induction s as [|c s IH]; [done|].
  destruct s as [|c' s].
  - simpl. by intros ->.
  - intros Hl. change (last_char (String c (String c' s)))
      with (last_char (String c' s)) in Hl.
    change (rstrip (String c (String c' s)))
      with (match rstrip (String c' s) with
            | EmptyString =>
                if is_space c then EmptyString else String c EmptyString
            | String a r => String c (String a r)
            end).
    by rewrite (IH Hl).
Qed.

Lemma rstrip_first (s : string) :
  space_char (first_char s) = false -> first_char (rstrip s) = first_char s.
Proof.
  destruct s as [|c s]; [done|]. simpl. intros Hc.
  destruct (rstrip s); [|done]. by rewrite Hc.
Qed.

Lemma strip_ends (s : string) :
  space_char (first_char (strip s)) = false
  /\ space_char (last_char (strip s)) = false.
Proof.
  unfold strip. split; [|apply rstrip_last].
  rewrite rstrip_first; apply lstrip_first.
Qed.

Lemma strip_fix (s : string) :
  space_char (first_char s) = false -> space_char (last_char s) = false ->
  strip s = s.
Proof. intros Hf Hl. unfold strip. by rewrite (lstrip_fix _ Hf), rstrip_fix. Qed.

Lemma strip_idem (s : string) : strip (strip s) = strip s.
Proof. destruct (strip_ends s). by apply strip_fix. Qed.

(** *** The cleaning of the reviewer's answer *)

Lemma clean_returns_stripped (s : string) :
  exists x,
    _clean_gemini_output (PStr s) = Return (strip x).
Proof.
  unfold _clean_gemini_output, or_empty. simpl.
  assert (Hs : strip_method (if nonempty s then PStr s else PStr "")
               = Return (strip s)) by (by destruct s).
  rewrite Hs. simpl.
  destruct (startswith (strip s) "```" && endswith (strip s) "```").
  - destruct (startswith _ "json"); eexists; [reflexivity|].
    by rewrite strip_idem.
  - destruct (startswith _ "json"); eexists; reflexivity.
Qed.

Lemma clean_raise_iff (output : pyval) :
  _clean_gemini_output output = Raise <-> not_a_string output.
Proof.
  unfold _clean_gemini_output, or_empty, not_a_string.
  destruct output as [|s|[] r]; simpl.
  - split; [done|]. by intros (r & ?).
  - destruct (nonempty s); simpl; (split; [done|]); by intros (r & ?).
  - split; [|done]. intros _. by exists r.
  - split; [done|]. by intros (r' & ?).
Qed.

(** X18.  [_clean_gemini_output] raises only on a true value that is not
    a string; [None] and other false values give the empty string.  What
    it returns never starts or ends with whitespace: stripping it again
    changes nothing. *)
Theorem cleaned_output_is_stripped (output : pyval) :
  (_clean_gemini_output output = Raise <-> not_a_string output)
  /\ (truthy output = false -> _clean_gemini_output output = Return "")
  /\ forall r,
       _clean_gemini_output output = Return r ->
       strip r = r
       /\ space_char (first_char r) = false
       /\ space_char (last_char r) = false.
Proof.
  split; [apply clean_raise_iff|]. split.
  - intros Hf. unfold _clean_gemini_output, or_empty. by rewrite Hf.
  - intros r Hr.
    assert (Hx : exists x, r = strip x).
    { destruct output as [|s|[] sh].
      - injection Hr as <-. by exists "".
      - destruct (clean_returns_stripped s) as (x & Hx).
        rewrite Hx in Hr. injection Hr as <-. by exists x.
      - discriminate.
      - injection Hr as <-. by exists "". }
    destruct Hx as (x & ->). split; [apply strip_idem|apply strip_ends].
Qed.

Lemma app_snoc_cons (cur : string) (c : ascii) (l : string) :
  (cur +:+ String c "") +:+ l = cur +:+ String c l.
Proof. induction cur as [|x cur IH]; [done|]. by rewrite !app_cons, IH. Qed.

Lemma app_assoc_string (a b c : string) : (a +:+ b) +:+ c = a +:+ b +:+ c.
Proof. induction a as [|x a IH]; [done|]. by rewrite !app_cons, IH. Qed.

Lemma splitlines_line (l s cur : string) :
  one_line l = true ->
  splitlines_from (l +:+ s) cur = splitlines_from s (cur +:+ l).
Proof.
  unfold one_line. revert cur. induction l as [|c l IH]; intros cur Hl.
  - by rewrite app_empty_r.
  - simpl in Hl. apply andb_true_iff in Hl as [Hc Hl].
    rewrite app_cons. simpl.
    destruct (is_linebreak c); [done|].
    by rewrite (IH _ Hl), app_snoc_cons.
Qed.

Lemma splitlines_newline (s cur : string) :
  splitlines_from (String "010" s) cur = cur :: splitlines_from s "".
Proof. by destruct s. Qed.

Lemma join_cons (sep x : string) (l : list string) :
  l <> [] -> join sep (x :: l) = x +:+ sep +:+ join sep l.
Proof. by destruct l. Qed.

Lemma splitlines_join (lines : list string) (last cur : string) :
  Forall (fun l => one_line l = true) lines ->
  one_line last = true -> nonempty last = true ->
  splitlines_from (join (String "010" "") (lines ++ [last])) cur
  = match lines ++ [last] with
    | x :: r => (cur +:+ x) :: r
    | [] => []
    end.
Proof.
  intros Hlines Hlast Hne. revert cur.
  induction Hlines as [|l rest Hl _ IH]; intros cur.
  - change (join (String "010" "") ([] ++ [last])) with last.
    rewrite <- (app_empty_r last) at 1.
    rewrite (splitlines_line _ _ _ Hlast). simpl.
    destruct (cur +:+ last) eqn:Hcl; [|done].
    destruct cur, last; done.
  - change ((l :: rest) ++ [last]) with (l :: (rest ++ [last])).
    rewrite join_cons by (by destruct rest).
    rewrite (splitlines_line _ _ _ Hl).
    change (String "010" "" +:+ join (String "010" "") (rest ++ [last]))
      with (String "010" (join (String "010" "") (rest ++ [last]))).
    rewrite splitlines_newline, IH.
    by destruct (rest ++ [last]).
Qed.

Lemma middle_of_wrapped {A} (x y : A) (l : list A) :
  middle (x :: l ++ [y]) = l.
Proof.
  unfold middle. simpl. rewrite length_app. simpl.
  replace (length l + 1 - 1) with (length l) by lia.
  apply take_app_length.
Qed.

Lemma substring_whole (t : string) : substring 0 (String.length t) t = t.
Proof. induction t as [|c t IH]; [done|]. simpl. by rewrite IH. Qed.

Lemma endswith_app (a t : string) : endswith (a +:+ t) t = true.
Proof.
  unfold endswith. rewrite length_app_str.
  replace (String.length a + String.length t - String.length t)
    with (String.length a) by lia.
  rewrite substring_app_r, substring_whole, String.eqb_refl. simpl.
  apply bool_decide_eq_true_2. lia.
Qed.

Lemma join_snoc (sep x : string) (l : list string) :
  l <> [] -> join sep (l ++ [x]) = join sep l +:+ sep +:+ x.
Proof.
  induction l as [|y l IH]; [done|]. intros _.
  destruct l as [|z l]; [done|].
  change ((y :: z :: l) ++ [x]) with (y :: ((z :: l) ++ [x])).
  rewrite join_cons by done. rewrite IH by done.
  rewrite (join_cons sep y (z :: l)) by done.
  by rewrite !app_assoc_string.
Qed.

Lemma last_char_snoc (a : string) (c : ascii) :
  last_char (a +:+ String c "") = Some c.
Proof.
  induction a as [|x a IH]; [done|]. rewrite app_cons. simpl. rewrite IH.
  by destruct (a +:+ String c "") eqn:Ha; [destruct a|].
Qed.

Lemma fenced_shape (tag : string) (body : list string) :
  exists a b, fenced tag body = "```" +:+ a /\ fenced tag body = b +:+ "```".
Proof.
  unfold fenced.
  change ((("```" +:+ tag) :: body) ++ ["```"])
    with (("```" +:+ tag) :: (body ++ ["```"])).
  rewrite join_cons by (by destruct body).
  destruct body as [|b body].
  - exists (tag +:+ String "010" "" +:+ "```"),
           ("```" +:+ tag +:+ String "010" "").
    rewrite !app_assoc_string. split; reflexivity.
  - rewrite join_snoc by done.
    exists (tag +:+ String "010" ""
            +:+ join (String "010" "") (b :: body) +:+ String "010" ""
            +:+ "```"),
           ("```" +:+ tag +:+ String "010" ""
            +:+ join (String "010" "") (b :: body) +:+ String "010" "").
    rewrite !app_assoc_string. split; reflexivity.
Qed.

Lemma one_line_app (a b : string) :
  one_line (a +:+ b) = one_line a && one_line b.
Proof. apply all_chars_app. Qed.

(** X19.  A fenced block is unwrapped to its body: for an answer made of
    an opening fence with any one-line language tag, body lines and a
    closing fence, the result is the stripped body, the lines joined by
    newlines (unless the body itself starts with "json", which the second
    step would then remove). *)
Theorem fenced_block_is_unwrapped (tag : string) (body : list string) :
  one_line tag = true ->
  Forall (fun l => one_line l = true) body ->
  startswith (lower (strip (join (String "010" "") body))) "json" = false ->
  _clean_gemini_output (PStr (fenced tag body))
  = Return (strip (join (String "010" "") body)).
Proof.
  intros Htag Hbody Hjson.
  destruct (fenced_shape tag body) as (a & b & Hhead & Htail).
  assert (Hstrip : strip (fenced tag body) = fenced tag body).
  { apply strip_fix.
    - by rewrite Hhead.
    - rewrite Htail.
      change "```" with ("``" +:+ String "`" "").
      by rewrite <- app_assoc_string, last_char_snoc. }
  unfold _clean_gemini_output, or_empty.
  assert (Hne : nonempty (fenced tag body) = true) by (by rewrite Hhead).
  simpl truthy. rewrite Hne. simpl. rewrite Hstrip.
  assert (Hs : startswith (fenced tag body) "```" = true).
  { apply startswith_spec. by exists a. }
  assert (He : endswith (fenced tag body) "```" = true).
  { rewrite Htail. apply endswith_app. }
  rewrite Hs, He. simpl.
  assert (Hlines : splitlines (fenced tag body)
                   = ("```" +:+ tag) :: body ++ ["```"]).
  { unfold splitlines, fenced.
    rewrite (splitlines_join (("```" +:+ tag) :: body) "```" "");
      [done| |done|done].
    constructor; [|done]. by rewrite one_line_app, Htag. }
  rewrite Hlines, middle_of_wrapped. by rewrite Hjson.
Qed.

Lemma fenced_block_is_unwrapped_witness :
  one_line "json" = true
  /\ Forall (fun l => one_line l = true) ["{"; "}"]
  /\ startswith (lower (strip (join (String "010" "") ["{"; "}"]))) "json"
     = false
  /\ _clean_gemini_output (PStr (fenced "json" ["{"; "}"]))
     = Return (strip (join (String "010" "") ["{"; "}"])).
Proof.
  assert (H2 : Forall (fun l => one_line l = true) ["{"; "}"])
    by (repeat constructor).
  split; [reflexivity|]. split; [exact H2|]. split; [reflexivity|].
  exact (fenced_block_is_unwrapped "json" ["{"; "}"] eq_refl H2 eq_refl).
Defined.

Lemma splitlines_one_line (s : string) :
  one_line s = true -> nonempty s = true -> splitlines s = [s].
Proof.
  intros Hl Hne. unfold splitlines.
  rewrite <- (app_empty_r s) at 1.
  rewrite (splitlines_line _ _ _ Hl).
  change ("" +:+ s) with s. simpl. by rewrite Hne.
Qed.

(** X20.  A fenced answer on a single line loses its content: when the
    stripped answer has no line boundary and starts and ends with a
    fence, dropping the first and the last line leaves nothing and the
    result is the empty string. *)
Theorem one_line_fence_is_emptied (s : string) :
  one_line (strip s) = true ->
  startswith (strip s) "```" = true ->
  endswith (strip s) "```" = true ->
  _clean_gemini_output (PStr s) = Return "".
Proof.
  intros Hl Hs He. unfold _clean_gemini_output, or_empty. simpl.
  assert (Hm : strip_method (if nonempty s then PStr s else PStr "")
               = Return (strip s)) by (by destruct s).
  rewrite Hm. simpl. rewrite Hs, He. simpl.
  rewrite splitlines_one_line; [done|done|].
  by destruct (strip s).
Qed.

Lemma one_line_fence_is_emptied_witness :
  one_line (strip " ```{}``` ") = true
  /\ startswith (strip " ```{}``` ") "```" = true
  /\ endswith (strip " ```{}``` ") "```" = true
  /\ _clean_gemini_output (PStr " ```{}``` ") = Return "".
Proof.
  split; [reflexivity|]. split; [reflexivity|]. split; [reflexivity|].
  exact (one_line_fence_is_emptied " ```{}``` " eq_refl eq_refl eq_refl).
Defined.

(** *** The reviewer's answer *)

Lemma file_issues_app (py_repr : json -> string) (k : string)
    (ps : list json) (found : list issue) :
  exists added,
    (file_issues py_repr k ps found).1 = found ++ added
    /\ Forall (fun iss => iss !! "document" = Some (PStr k)) added
    /\ (Forall is_dict ps ->
        file_issues py_repr k ps found
        = (found ++ filed_list py_repr k ps, Return tt))
    /\ (~ Forall is_dict ps -> (file_issues py_repr k ps found).2 = Raise).
Proof.
  revert found. induction ps as [|p ps IH]; intros found.
  - exists []. simpl. rewrite app_nil_r. repeat split; try done.
    intros Hn. exfalso. by apply Hn.
  - destruct p as [| | | | |l|items];
      try (exists []; simpl; rewrite app_nil_r;
           split; [done|]; split; [done|];
           split; [by intros Hd%Forall_cons_1%proj1|done]).
    simpl.
    destruct (IH (found ++ [<["document" := PStr k]> (to_issue py_repr items)]))
      as (added & Hfst & Hdoc & Hok & Hbad).
    exists (<["document" := PStr k]> (to_issue py_repr items) :: added).
    split; [by rewrite Hfst, <- app_assoc|]. split; [|split].
    + constructor; [apply lookup_insert_eq|done].
    + intros Hd. apply Forall_cons in Hd as [_ Hd].
      rewrite (Hok Hd). by rewrite <- app_assoc.
    + intros Hn. apply Hbad. intros Hd. apply Hn. by constructor.
Qed.

Lemma filed_documents (py_repr : json -> string) (kv : string * json)
    (iss : issue) :
  iss ∈ filed py_repr kv -> iss !! "document" = Some (PStr kv.1).
Proof.
  assert (Hl : forall l, iss ∈ filed_list py_repr kv.1 l ->
                 iss !! "document" = Some (PStr kv.1)).
  { intros l Hin. unfold filed_list in Hin.
    apply list_elem_of_omap in Hin as (p & _ & Hp).
    destruct p; try done. injection Hp as <-. apply lookup_insert_eq. }
  unfold filed. destruct kv.2; try (by intros ?%elem_of_nil); apply Hl.
Qed.

Lemma file_one (py_repr : json -> string) (kv : string * json)
    (rest : list (string * json)) (found : list issue) :
  (usable kv.2 ->
     file_all py_repr (kv :: rest) found
     = file_all py_repr rest (found ++ filed py_repr kv))
  /\ (~ usable kv.2 ->
     exists partial,
       file_all py_repr (kv :: rest) found = (found ++ partial, Raise)
       /\ Forall (fun iss => iss !! "document" = Some (PStr kv.1)) partial).
Proof.
  destruct kv as [k v]. simpl. split.
  - intros Hu. destruct v as [| | | |s|l|items]; try done.
    + simpl in Hu. subst s. simpl. by rewrite app_nil_r.
    + simpl.
      destruct (file_issues_app py_repr k l found) as (_ & _ & _ & Hok & _).
      by rewrite (Hok Hu).
  - intros Hu. destruct v as [| | | |s|l|items];
      try (exists []; by rewrite app_nil_r).
    + destruct s as [|c s]; [done|]. exists []. simpl. by rewrite app_nil_r.
    + simpl.
      destruct (file_issues_app py_repr k l found)
        as (added & Hfst & Hdoc & _ & Hbad).
      specialize (Hbad Hu).
      destruct (file_issues py_repr k l found) as [f r]. simpl in *.
      subst. by exists added.
Qed.

Lemma file_all_usable (py_repr : json -> string)
    (items : list (string * json)) (found : list issue) :
  Forall (fun kv => usable kv.2) items ->
  file_all py_repr items found
  = (found ++ concat (map (filed py_repr) items), Return tt).
Proof.
  revert found. induction items as [|kv items IH]; intros found Hall.
  - simpl. by rewrite app_nil_r.
  - apply Forall_cons in Hall as [Hkv Hall].
    rewrite (proj1 (file_one py_repr kv items found) Hkv), (IH _ Hall).
    simpl. by rewrite <- app_assoc.
Qed.

(** X21.  A usable answer is filed by its keys.  When the cleaned answer
    decodes to a dict whose values are dicts or lists of dicts, the issues
    found so far are kept and the reviewer's issues are appended key by
    key, in order; every one of them gets its key as "document" entry,
    whatever entry of that name the reviewer wrote itself. *)
Theorem usable_answer_is_filed_by_key (json_loads : string -> exn json)
    (py_repr : json -> string) (response cleaned : string)
    (items : list (string * json)) (issues_found : list issue) :
  nonempty response = true ->
  _clean_gemini_output (PStr response) = Return cleaned ->
  json_loads cleaned = Return (JDict items) ->
  Forall (fun kv => usable kv.2) items ->
  merge_response json_loads py_repr (Some response) issues_found
  = issues_found ++ concat (map (filed py_repr) items)
  /\ forall kv iss,
       kv ∈ items -> iss ∈ filed py_repr kv ->
       iss !! "document" = Some (PStr kv.1).
Proof.
  intros Hne Hclean Hloads Hall. split.
  - unfold merge_response. rewrite Hne, Hclean. simpl. rewrite Hloads.
    by rewrite (file_all_usable _ _ _ Hall).
  - intros kv iss _. apply filed_documents.
Qed.

Lemma usable_answer_is_filed_by_key_witness :
  nonempty "{}" = true
  /\ _clean_gemini_output (PStr "{}") = Return "{}"
  /\ loads_to sample_answer "{}" = Return sample_answer
  /\ merge_response (loads_to sample_answer) no_repr (Some "{}")
       [bare_issue]
     = [bare_issue;
        <["document" := PStr "Short Document"]>
          (to_issue no_repr
             [("section", JStr "Jurisdiction clause");
              ("issue", JStr "Courts are not named");
              ("document", JStr "somewhere else")]);
        <["document" := PStr "Memorandum of Association"]>
          (to_issue no_repr
             [("section", JStr "Objects"); ("severity", JInt true "3")])].
Proof.
  split; [reflexivity|]. split; [reflexivity|]. split; [reflexivity|].
  refine (proj1 (usable_answer_is_filed_by_key (loads_to sample_answer)
                   no_repr "{}" "{}"
                   [("Short Document",
                     JList [JDict [("section", JStr "Jurisdiction clause");
                                   ("issue", JStr "Courts are not named");
                                   ("document", JStr "somewhere else")]]);
                    ("Memorandum of Association",
                     JDict [("section", JStr "Objects");
                            ("severity", JInt true "3")])]
                   [bare_issue] eq_refl eq_refl eq_refl _)).
  repeat constructor.
Defined.

Lemma str_take_drop (n : nat) (s : string) :
  str_take n s +:+ str_drop n s = s.
Proof.
  revert s. induction n as [|n IH]; intros [|c s]; try done.
  simpl. by rewrite app_cons, IH.
Qed.

Lemma str_take_length (n : nat) (s : string) :
  String.length (str_take n s) <= n.
Proof.
  revert s. induction n as [|n IH]; intros [|c s]; simpl; try lia.
  specialize (IH s). lia.
Qed.

Lemma str_take_all (n : nat) (s : string) :
  String.length s <= n -> str_take n s = s.
Proof.
  revert s. induction n as [|n IH]; intros [|c s]; simpl; try done; try lia.
  intros Hl. rewrite IH; [done|lia].
Qed.

Lemma raw_issue_fields (response : string) :
  raw_issue response !! "document" = Some (PStr "RAG")
  /\ raw_issue response !! "section" = Some (PStr "RAG Analysis")
  /\ raw_issue response !! "issue" = Some (PStr (str_take 1000 response))
  /\ raw_issue response !! "severity" = Some (PStr "Low").
Proof.
  unfold raw_issue. generalize (str_take 1000 response). intros t.
  repeat split; vm_compute; reflexivity.
Qed.

Lemma rag_is_no_label (p : parsed) :
  classify_doc_type (d_text p) <> "RAG".
Proof.
  intros Hrag.
  destruct (classify_cases (d_text p)) as [Hfive|[[Hl _]|[Hl _]]].
  - rewrite Hrag in Hfive. apply list_elem_of_In in Hfive.
    simpl in Hfive. intuition discriminate.
  - by rewrite Hrag in Hl.
  - by rewrite Hrag in Hl.
Qed.

(** X22.  An answer that does not decode is kept raw.  The issues found
    so far stay, and one Low "RAG Analysis" issue is appended whose text
    is the answer cut to its first 1000 characters.  It is filed under
    "RAG", which is no document type: no reviewed copy shows it. *)
Theorem undecodable_answer_is_kept_raw (json_loads : string -> exn json)
    (py_repr : json -> string) (response : string)
    (issues_found : list issue) (p : parsed) :
  nonempty response = true ->
  (forall cleaned,
     _clean_gemini_output (PStr response) = Return cleaned ->
     json_loads cleaned = Raise) ->
  let out := merge_response json_loads py_repr (Some response) issues_found in
  out = issues_found ++ [raw_issue response]
  /\ raw_issue response !! "severity" = Some (PStr "Low")
  /\ (exists t rest,
        raw_issue response !! "issue" = Some (PStr t)
        /\ response = t +:+ rest
        /\ String.length t <= 1000
        /\ (String.length response <= 1000 -> t = response))
  /\ raw_issue response
     ∉ doc_issues out (Classified p (classify_doc_type (d_text p))).
Proof.
  intros Hne Hfail out.
  destruct (raw_issue_fields response) as (Hdoc & _ & Hissue & Hsev).
  split; [|split; [done|split]].
  - unfold out, merge_response. rewrite Hne.
    destruct (_clean_gemini_output (PStr response)) as [cleaned|] eqn:Hc;
      simpl; [|done].
    by rewrite (Hfail cleaned eq_refl).
  - exists (str_take 1000 response), (str_drop 1000 response).
    split; [done|]. split; [by rewrite str_take_drop|].
    split; [apply str_take_length|apply str_take_all].
  - intros Hin. unfold doc_issues in Hin.
    apply list_elem_of_filter in Hin as [Hty _].
    apply document_field in Hty. simpl in Hty. rewrite Hdoc in Hty.
    injection Hty as Hrag. by apply (rag_is_no_label p).
Qed.

Lemma undecodable_answer_is_kept_raw_witness :
  nonempty "Sorry, no JSON today." = true
  /\ (forall cleaned,
        _clean_gemini_output (PStr "Sorry, no JSON today.") = Return cleaned ->
        loads_fails cleaned = Raise)
  /\ merge_response loads_fails no_repr (Some "Sorry, no JSON today.")
       [bare_issue]
     = [bare_issue; raw_issue "Sorry, no JSON today."].
Proof.
  assert (H2 : forall cleaned,
            _clean_gemini_output (PStr "Sorry, no JSON today.")
              = Return cleaned -> loads_fails cleaned = Raise)
    by (intros cleaned _; reflexivity).
  split; [reflexivity|]. split; [exact H2|].
  exact (proj1 (undecodable_answer_is_kept_raw loads_fails no_repr
                  "Sorry, no JSON today." [bare_issue]
                  (Parsed "" "" []) eq_refl H2)).
Defined.




Lemma file_all_prefix (py_repr : json -> string)
    (items : list (string * json)) (found : list issue) :
  found `prefix_of` (file_all py_repr items found).1.
Proof.
  revert found. induction items as [|[k v] items IH]; intros found; simpl.
  - done.
  - destruct (iterate _) as [ps|]; [|done].
    destruct (file_issues_app py_repr k ps found) as (added & Hfst & _).
    destruct (file_issues py_repr k ps found) as [f r]. simpl in Hfst.
    subst f. destruct r.
    + etrans; [|apply IH]. by apply prefix_app_r.
    + simpl. by apply prefix_app_r.
Qed.

(** X24.  Merging the answer only appends: the issues found before are a
    prefix of the result in every case, and nothing changes without an
    answer.  A list answer adds its dict entries as they are and drops
    the other entries; an entry without "document" is then reviewed into
    no document. *)
Theorem merge_only_appends (json_loads : string -> exn json)
    (py_repr : json -> string) (response : option string)
    (issues_found : list issue) :
  issues_found
    `prefix_of` merge_response json_loads py_repr response issues_found
  /\ (response = None \/ response = Some "" ->
        merge_response json_loads py_repr response issues_found
        = issues_found)
  /\ (forall r cleaned l,
        response = Some r -> nonempty r = true ->
        _clean_gemini_output (PStr r) = Return cleaned ->
        json_loads cleaned = Return (JList l) ->
        merge_response json_loads py_repr response issues_found
        = issues_found ++ dict_entries py_repr l)
  /\ (forall iss all_issues d,
        iss !! "document" = None -> iss ∉ doc_issues all_issues d).
Proof.
  split; [|split; [|split]].
  - unfold merge_response. destruct response as [r|]; [|done].
    destruct (nonempty r); [|done].
    destruct (_clean_gemini_output (PStr r)) as [cleaned|]; simpl;
      [|by apply prefix_app_r].
    destruct (json_loads cleaned) as [parsed|]; [|by apply prefix_app_r].
    destruct parsed; try (by apply prefix_app_r).
    pose proof (file_all_prefix py_repr items issues_found) as Hp.
    destruct (file_all py_repr items issues_found) as [f [|]]; simpl in Hp.
    + done.
    + etrans; [exact Hp|]. by apply prefix_app_r.
  - intros [->| ->]; reflexivity.
  - intros r cleaned l -> Hne Hclean Hloads.
    unfold merge_response. rewrite Hne, Hclean. simpl. by rewrite Hloads.
  - intros iss all_issues d Hnone Hin. unfold doc_issues in Hin.
    apply list_elem_of_filter in Hin as [Hty _].
    apply document_field in Hty. congruence.
Qed.

(** *** The chunks of the reference documents *)

Lemma length_lstrip (s : string) : String.length (lstrip s) <= String.length s.
Proof.
  induction s as [|c s IH]; simpl; [done|].
  destruct (is_space c); simpl; lia.
Qed.

Lemma length_rstrip (s : string) : String.length (rstrip s) <= String.length s.
Proof.
  induction s as [|c s IH]; simpl; [done|].
  destruct (rstrip s) as [|c' r]; simpl in *.
  - destruct (is_space c); simpl; lia.
  - lia.
Qed.

Lemma length_strip (s : string) : String.length (strip s) <= String.length s.
Proof.
  unfold strip. pose proof (length_rstrip (lstrip s)).
  pose proof (length_lstrip s). lia.
Qed.

Lemma strip_visible_iff (s : string) :
  nonempty (strip s) = true <-> visible s.
Proof.
  unfold visible. rewrite nonempty_strip.
  by destruct (all_chars is_space s).
Qed.

Lemma emitted_chunk_good (sentences : list string) (current : string) :
  buffer_ok sentences current ->
  nonempty (strip current) = true ->
  good_chunk sentences (strip current).
Proof.
  intros Hbuf Hne. split; [apply strip_idem|]. split.
  - apply strip_visible_iff. by rewrite strip_idem.
  - destruct Hbuf as [Hlen|(sent & Hin & ->)].
    + left. pose proof (length_strip current). lia.
    + right. by exists sent.
Qed.

Lemma emit_extends (i : nat) (p : string) (sentences : list string)
    (acc0 acc : chunks) (k : nat) (current : string) :
  extends i p sentences acc0 acc k ->
  buffer_ok sentences current ->
  nonempty (strip current) = true ->
  extends i p sentences acc0 (emit i p current k acc) (S k).
Proof.
  intros (added & Hlen & Hdocs & Hgood & Hmeta & Hids) Hbuf Hne.
  exists (added ++ [strip current]). unfold emit. cbn [docs metadatas ids].
  split; [rewrite length_app; simpl; lia|]. split; [|split; [|split]].
  - by rewrite Hdocs, <- app_assoc.
  - apply Forall_app. split; [done|].
    constructor; [by apply emitted_chunk_good|done].
  - by rewrite Hmeta, replicate_S_end, <- app_assoc.
  - rewrite Hids, seq_S, map_app. simpl. by rewrite <- app_assoc.
Qed.

Lemma pack_fold (i : nat) (p : string) (sentences ss : list string)
    (acc0 : chunks) (current : string) (k : nat) (acc : chunks) :
  (forall x, x ∈ ss -> x ∈ sentences) ->
  buffer_ok sentences current ->
  extends i p sentences acc0 acc k ->
  exists current' k' acc',
    fold_left (pack_step i p) ss (current, k, acc) = (current', k', acc')
    /\ buffer_ok sentences current'
    /\ extends i p sentences acc0 acc' k'.
Proof.
  revert current k acc. induction ss as [|sent ss IH];
    intros current k acc Hss Hbuf Hext.
  - by exists current, k, acc.
  - assert (Hss' : forall x, x ∈ ss -> x ∈ sentences)
      by (intros x Hx; apply Hss; by right).
    assert (Hsent : sent ∈ sentences) by (apply Hss; left).
    simpl.
    destruct (decide (String.length current + String.length sent + 1 <= 800))
      as [Hfit|Hfull].
    + apply IH; [done| |done]. left.
      rewrite !length_app_str. simpl. lia.
    + destruct (nonempty (strip current)) eqn:Hne.
      * apply IH; [done| |].
        -- right. by exists sent.
        -- rewrite Nat.add_1_r. by apply emit_extends.
      * apply IH; [done| |done]. right. by exists sent.
Qed.

Lemma chunk_text_extends (i : nat) (p text : string) (acc : chunks) :
  exists n,
    extends i p (split_sentences text) acc (chunk_text i p text acc) n.
Proof.
  unfold chunk_text.
  destruct (pack_fold i p (split_sentences text) (split_sentences text)
              acc "" 0 acc) as (current & k & acc' & Hfold & Hbuf & Hext).
  - done.
  - left. simpl. lia.
  - exists []. simpl. by rewrite !app_nil_r.
  - rewrite Hfold. destruct (nonempty (strip current)) eqn:Hne.
    + exists (S k). by apply emit_extends.
    + by exists k.
Qed.

Lemma fresh_pairs (n m : nat) : NoDup (map (fun k => (n, k)) (seq 0 m)).
Proof.
  apply NoDup_fmap_2_strong; [|apply NoDup_seq].
  intros x y _ _ Heq. by injection Heq.
Qed.

Lemma same_source (paths : list string) (n : nat) (p : string) (l : list nat) :
  paths !! n = Some p ->
  Forall2 (source_of paths) (map (fun k => (n, k)) l)
          (replicate (length l) {[ "source" := basename p ]}).
Proof.
  intros Hp. induction l as [|k l IH]; simpl; constructor; [|done].
  by exists p.
Qed.

Lemma gathered_step (docx_files : files) (text_files : gmap string string)
    (paths : list string) (n : nat) (p t : string) (acc : chunks) :
  gathered docx_files text_files paths n acc ->
  paths !! n = Some p ->
  read_reference docx_files text_files p = Return t ->
  gathered docx_files text_files paths (S n) (chunk_text n p t acc).
Proof.
  intros (pairs & Hids & Hnd & Hlt & Hsrc & Hlen & Hgood) Hp Hread.
  destruct (chunk_text_extends n p t acc)
    as (m & added & Hm & Hdocs & Hadded & Hmeta & Hids').
  exists (pairs ++ map (fun k => (n, k)) (seq 0 m)).
  split; [|split; [|split; [|split; [|split]]]].
  - rewrite Hids', Hids, map_app. f_equal. by rewrite map_map.
  - apply NoDup_app. split; [done|]. split; [|apply fresh_pairs].
    intros ik Hik Hin. rewrite Forall_forall in Hlt.
    specialize (Hlt ik Hik).
    apply list_elem_of_fmap in Hin as (k & -> & _). simpl in Hlt. lia.
  - apply Forall_app. split.
    + eapply Forall_impl; [exact Hlt|]. intros ik Hik. simpl in *. lia.
    + apply Forall_forall. intros ik Hin.
      apply list_elem_of_fmap in Hin as (k & -> & _). simpl. lia.
  - rewrite Hmeta. apply Forall2_app; [done|].
    rewrite <- (length_seq m 0) at 2. by apply same_source.
  - rewrite Hdocs, !length_app, length_map, length_seq. lia.
  - rewrite Hdocs. apply Forall_app. split; [done|].
    eapply Forall_impl; [exact Hadded|].
    intros c (Hs & Hv & Hb). split; [done|]. split; [done|].
    destruct Hb as [Hb|(sent & Hin & ->)]; [by left|].
    right. exists p, t, sent. split; [|done].
    by eapply list_elem_of_lookup_2.
Qed.

Lemma gather_loop_gathered (docx_files : files)
    (text_files : gmap string string) (paths pre ps : list string)
    (acc acc' : chunks) :
  paths = pre ++ ps ->
  gathered docx_files text_files paths (length pre) acc ->
  gather_loop docx_files text_files (enumerate_from (length pre) ps) acc
    = Return acc' ->
  gathered docx_files text_files paths (length paths) acc'.
Proof.
  revert pre acc. induction ps as [|p ps IH]; intros pre acc Hpaths Hg; simpl.
  - intros [= <-]. subst paths. rewrite app_nil_r in *. done.
  - destruct (read_reference docx_files text_files p) as [t|] eqn:Hread;
      simpl; [|done].
    intros Hloop. apply (IH (pre ++ [p]) (chunk_text (length pre) p t acc)).
    + by rewrite <- app_assoc.
    + rewrite length_app. simpl. rewrite Nat.add_1_r.
      apply gathered_step; [done| |done].
      rewrite Hpaths. by apply list_lookup_middle.
    + rewrite length_app. simpl. by rewrite Nat.add_1_r.
Qed.

Lemma gather_returns_gathered (docx_files : files)
    (text_files : gmap string string) (paths : list string) (acc : chunks) :
  gather_chunks docx_files text_files paths = Return acc ->
  gathered docx_files text_files paths (length paths) acc /\ docs acc <> [].
Proof.
  unfold gather_chunks, enumerate. destruct paths as [|p0 ps0]; [done|].
  destruct (gather_loop _ _ _ _) as [acc0|] eqn:Hloop; simpl; [|done].
  destruct (docs acc0) eqn:Hd; [done|]. intros [= <-].
  split; [|by rewrite Hd].
  apply (gather_loop_gathered docx_files text_files (p0 :: ps0) []
           (p0 :: ps0) (Chunks [] [] []) acc0); [done| |done].
  exists []. simpl. repeat split; constructor.
Qed.

(** X25.  Every chunk handed to the store is stripped and not blank, and
    it has at most 800 characters unless it is a single sentence of a
    reference text; the metadata and identifier lists run side by side
    with the chunks, and there is at least one chunk. *)
Theorem chunks_are_stripped_and_bounded (docx_files : files)
    (text_files : gmap string string) (paths : list string) (acc : chunks) :
  gather_chunks docx_files text_files paths = Return acc ->
  Forall (chunk_of docx_files text_files paths) (docs acc)
  /\ length (metadatas acc) = length (docs acc)
  /\ length (ids acc) = length (docs acc)
  /\ docs acc <> [].
Proof.
  intros Hg.
  destruct (gather_returns_gathered _ _ _ _ Hg)
    as ((pairs & Hids & _ & _ & Hsrc & Hlen & Hgood) & Hne).
  split; [done|]. split; [|split; [|done]].
  - by rewrite <- (Forall2_length _ _ _ Hsrc).
  - by rewrite Hids, length_map.
Qed.

Lemma chunks_are_stripped_and_bounded_witness :
  gather_chunks ∅ sample_texts ["refs/rules.txt"; "refs/empty.txt"]
  = Return (Chunks ["Companies must file. Directors sign! Done?"]
                   [{[ "source" := "rules.txt" ]}] ["0_0"])
  /\ Forall (chunk_of ∅ sample_texts ["refs/rules.txt"; "refs/empty.txt"])
            ["Companies must file. Directors sign! Done?"].
Proof.
  assert (H : gather_chunks ∅ sample_texts ["refs/rules.txt"; "refs/empty.txt"]
              = Return (Chunks ["Companies must file. Directors sign! Done?"]
                               [{[ "source" := "rules.txt" ]}] ["0_0"]))
    by (vm_compute; reflexivity).
  split; [exact H|].
  exact (proj1 (chunks_are_stripped_and_bounded ∅ sample_texts
                  ["refs/rules.txt"; "refs/empty.txt"] _ H)).
Defined.

Lemma uint_digits (d : Decimal.uint) :
  all_chars is_digit (NilEmpty.string_of_uint d) = true.
Proof. induction d; simpl; [done|..]; exact IHd. Qed.

Lemma py_int_inj (a b : nat) : py_int a = py_int b -> a = b.
Proof.
  unfold py_int. intros Heq.
  assert (Hu : Nat.to_uint a = Nat.to_uint b).
  { apply (f_equal NilEmpty.uint_of_string) in Heq.
    rewrite !NilEmpty.usu in Heq. by injection Heq. }
  apply (f_equal Nat.of_uint) in Hu.
  by rewrite !DecimalNat.Unsigned.of_to in Hu.
Qed.

Lemma digits_then_underscore (a a' b b' : string) :
  all_chars is_digit a = true -> all_chars is_digit a' = true ->
  a +:+ "_" +:+ b = a' +:+ "_" +:+ b' -> a = a' /\ b = b'.
Proof.
  revert a'. induction a as [|c a IH]; intros [|c' a'] Ha Ha' Heq.
  - by injection Heq.
  - rewrite app_cons in Heq. injection Heq as <- _.
    simpl in Ha'. discriminate.
  - rewrite app_cons in Heq. injection Heq as -> _.
    simpl in Ha. discriminate.
  - rewrite !app_cons in Heq. injection Heq as -> Heq.
    simpl in Ha, Ha'.
    apply andb_true_iff in Ha as [_ Ha]. apply andb_true_iff in Ha' as [_ Ha'].
    destruct (IH a' Ha Ha' Heq) as [-> ->]. done.
Qed.

Lemma chunk_name_inj (x y : nat * nat) : chunk_name x = chunk_name y -> x = y.
Proof.
  destruct x as [i k], y as [i' k']. unfold chunk_name. simpl. intros Heq.
  apply digits_then_underscore in Heq as [Hi Hk]; try apply uint_digits.
  by rewrite (py_int_inj _ _ Hi), (py_int_inj _ _ Hk).
Qed.

(** X26.  The identifiers of the chunks are pairwise distinct.  Each one
    is <file index>_<chunk index> in decimal, and the metadata at the same
    position gives the base name of that file as source. *)
Theorem chunk_ids_are_distinct (docx_files : files)
    (text_files : gmap string string) (paths : list string) (acc : chunks) :
  gather_chunks docx_files text_files paths = Return acc ->
  NoDup (ids acc)
  /\ Forall2 (fun id m =>
       exists i k p,
         id = py_int i +:+ "_" +:+ py_int k
         /\ paths !! i = Some p
         /\ m = {[ "source" := basename p ]})
       (ids acc) (metadatas acc).
Proof.
  intros Hg.
  destruct (gather_returns_gathered _ _ _ _ Hg)
    as ((pairs & Hids & Hnd & _ & Hsrc & _) & _).
  rewrite Hids. split.
  - apply NoDup_fmap_2_strong; [|done].
    intros x y _ _. apply chunk_name_inj.
  - apply Forall2_fmap_l. eapply Forall2_impl; [exact Hsrc|].
    intros [i k] m (p & Hp & ->). by exists i, k, p.
Qed.

Lemma chunk_ids_are_distinct_witness :
  gather_chunks ∅ sample_texts ["refs/rules.txt"; "refs/empty.txt"]
  = Return (Chunks ["Companies must file. Directors sign! Done?"]
                   [{[ "source" := "rules.txt" ]}] ["0_0"])
  /\ NoDup ["0_0"].
Proof.
  assert (H : gather_chunks ∅ sample_texts ["refs/rules.txt"; "refs/empty.txt"]
              = Return (Chunks ["Companies must file. Directors sign! Done?"]
                               [{[ "source" := "rules.txt" ]}] ["0_0"]))
    by (vm_compute; reflexivity).
  split; [exact H|].
  exact (proj1 (chunk_ids_are_distinct ∅ sample_texts
                  ["refs/rules.txt"; "refs/empty.txt"] _ H)).
Defined.

(** *** When the gathering fails *)

Lemma split_blank (s cur : string) (after_end in_sep : bool) :
  forallb (all_chars is_space) (split_sentences_from s cur after_end in_sep)
  = all_chars is_space cur && all_chars is_space s.
Proof.
  revert cur after_end in_sep.
  induction s as [|c s IH]; intros cur after_end in_sep; simpl.
  - by rewrite andb_true_r.
  - destruct (is_space c) eqn:Hc; simpl.
    + destruct in_sep; simpl; [by rewrite IH|].
      destruct after_end; simpl.
      * by rewrite IH.
      * rewrite IH, all_chars_app. simpl. rewrite Hc. simpl.
        by rewrite andb_true_r.
    + rewrite IH, all_chars_app. simpl. rewrite Hc. simpl.
      by rewrite !andb_false_r.
Qed.

Lemma forallb_false {A} (f : A -> bool) (l : list A) :
  forallb f l = false <-> exists x, x ∈ l /\ f x = false.
Proof.
  induction l as [|y l IH]; simpl.
  - split; [done|]. by intros (x & ?%elem_of_nil & _).
  - rewrite andb_false_iff, IH. split.
    + intros [Hy|(x & Hx & Hf)].
      * exists y. split; [left|done].
      * exists x. split; [by right|done].
    + intros (x & Hx & Hf). apply elem_of_cons in Hx as [->|Hx].
      * by left.
      * right. by exists x.
Qed.

Lemma split_visible (text : string) :
  (exists x, x ∈ split_sentences text /\ visible x) <-> visible text.
Proof.
  unfold visible, split_sentences.
  pose proof (split_blank text "" false false) as Hb. simpl in Hb.
  rewrite <- Hb. symmetry. apply forallb_false.
Qed.

Lemma visible_app (a b : string) :
  visible (a +:+ b) <-> visible a \/ visible b.
Proof.
  unfold visible. rewrite all_chars_app.
  destruct (all_chars is_space a), (all_chars is_space b); simpl; tauto.
Qed.

Lemma visible_with_blank (a : string) : visible (a +:+ " ") <-> visible a.
Proof.
  rewrite visible_app. unfold visible at 2. simpl. intuition discriminate.
Qed.

Lemma pack_grows (i : nat) (p : string) (ss : list string) (n0 : nat)
    (current : string) (k : nat) (acc : chunks) :
  n0 <= length (docs acc) ->
  exists current' k' acc',
    fold_left (pack_step i p) ss (current, k, acc) = (current', k', acc')
    /\ n0 <= length (docs acc')
    /\ (n0 < length (docs acc') \/ visible current'
        <-> n0 < length (docs acc) \/ visible current
            \/ exists x, x ∈ ss /\ visible x).
Proof.
  revert current k acc. induction ss as [|sent ss IH];
    intros current k acc Hn0.
  - exists current, k, acc. split; [done|]. split; [done|].
    split; [tauto|]. intros [H|[H|(x & Hx%elem_of_nil & _)]]; tauto.
  - simpl.
    destruct (decide (String.length current + String.length sent + 1 <= 800))
      as [Hfit|Hfull].
    + destruct (IH (current +:+ sent +:+ " ") k acc Hn0)
        as (c' & k' & acc' & Hfold & Hle & Hiff).
      exists c', k', acc'. split; [done|]. split; [done|].
      rewrite Hiff, visible_app, visible_with_blank. split.
      * intros [H|[[H|H]|(x & Hx & Hv)]]; [tauto|tauto| |].
        -- right. right. exists sent. split; [left|done].
        -- right. right. exists x. split; [by right|done].
      * intros [H|[H|(x & Hx & Hv)]]; [tauto|tauto|].
        apply elem_of_cons in Hx as [->|Hx]; [tauto|].
        right. right. by exists x.
    + destruct (nonempty (strip current)) eqn:Hne.
      * assert (Hv : visible current) by (by apply strip_visible_iff).
        destruct (IH (sent +:+ " ") (k + 1) (emit i p current k acc))
          as (c' & k' & acc' & Hfold & Hle & Hiff).
        { simpl. rewrite length_app. simpl. lia. }
        exists c', k', acc'. split; [done|]. split; [done|].
        rewrite Hiff. simpl. rewrite length_app. simpl.
        split; [tauto|]. intros _. left. lia.
      * assert (Hv : ~ visible current).
        { intros Hv. apply strip_visible_iff in Hv. congruence. }
        destruct (IH (sent +:+ " ") k acc Hn0)
          as (c' & k' & acc' & Hfold & Hle & Hiff).
        exists c', k', acc'. split; [done|]. split; [done|].
        rewrite Hiff, visible_with_blank. split.
        -- intros [H|[H|(x & Hx & Hvx)]]; [tauto| |].
           ++ right. right. exists sent. split; [left|done].
           ++ right. right. exists x. split; [by right|done].
        -- intros [H|[H|(x & Hx & Hvx)]]; [tauto|tauto|].
           apply elem_of_cons in Hx as [->|Hx]; [tauto|].
           right. right. by exists x.
Qed.

Lemma chunk_text_grows (i : nat) (p text : string) (acc : chunks) :
  length (docs acc) <= length (docs (chunk_text i p text acc))
  /\ (length (docs acc) < length (docs (chunk_text i p text acc))
      <-> visible text).
Proof.
  unfold chunk_text.
  destruct (pack_grows i p (split_sentences text) (length (docs acc))
              "" 0 acc) as (c' & k' & acc' & Hfold & Hle & Hiff); [done|].
  rewrite Hfold.
  assert (Hsum : (length (docs acc) < length (docs acc') \/ visible c')
                 <-> visible text).
  { rewrite Hiff, split_visible. split; [|tauto].
    intros [H|[H|H]]; [lia|by unfold visible in H|done]. }
  destruct (nonempty (strip c')) eqn:Hne.
  - assert (Hv : visible c') by (by apply strip_visible_iff).
    simpl. rewrite length_app. simpl. split; [lia|].
    split; [intros _; apply Hsum; by right|intros _; lia].
  - assert (Hv : ~ visible c').
    { intros Hv. apply strip_visible_iff in Hv. congruence. }
    split; [done|]. rewrite <- Hsum. tauto.
Qed.

Lemma gather_loop_raise (docx_files : files)
    (text_files : gmap string string) (n : nat) (ps : list string)
    (acc : chunks) :
  gather_loop docx_files text_files (enumerate_from n ps) acc = Raise
  <-> exists p, p ∈ ps /\ read_reference docx_files text_files p = Raise.
Proof.
  revert n acc. induction ps as [|p ps IH]; intros n acc; simpl.
  - split; [done|]. by intros (p & ?%elem_of_nil & _).
  - destruct (read_reference docx_files text_files p) as [t|] eqn:Hread;
      simpl.
    + rewrite IH. split.
      * intros (x & Hx & Hr). exists x. split; [by right|done].
      * intros (x & Hx & Hr). apply elem_of_cons in Hx as [->|Hx];
          [congruence|by exists x].
    + split; [|done]. intros _. exists p. split; [left|done].
Qed.

Lemma gather_loop_grows (docx_files : files)
    (text_files : gmap string string) (n : nat) (ps : list string)
    (acc acc' : chunks) :
  gather_loop docx_files text_files (enumerate_from n ps) acc = Return acc' ->
  length (docs acc) <= length (docs acc')
  /\ (length (docs acc) < length (docs acc')
      <-> exists p t, p ∈ ps
            /\ read_reference docx_files text_files p = Return t
            /\ visible t).
Proof.
  revert n acc. induction ps as [|p ps IH]; intros n acc; simpl.
  - intros [= <-]. split; [done|]. split; [lia|].
    by intros (p & t & ?%elem_of_nil & _).
  - destruct (read_reference docx_files text_files p) as [t|] eqn:Hread;
      simpl; [|done].
    intros Hloop. destruct (IH _ _ Hloop) as [Hle Hiff].
    destruct (chunk_text_grows n p t acc) as [Hle1 Hiff1].
    split; [lia|]. split.
    + intros Hlt.
      destruct (decide (length (docs acc)
                        < length (docs (chunk_text n p t acc)))) as [H1|H1].
      * exists p, t. split; [left|]. split; [done|]. by apply Hiff1.
      * destruct (proj1 Hiff) as (x & tx & Hx & Hr & Hv); [lia|].
        exists x, tx. split; [by right|done].
    + intros (x & tx & Hx & Hr & Hv).
      apply elem_of_cons in Hx as [->|Hx].
      * rewrite Hread in Hr. injection Hr as <-.
        apply Hiff1 in Hv. lia.
      * assert (length (docs (chunk_text n p t acc)) < length (docs acc'))
          by (apply Hiff; by exists x, tx).
        lia.
Qed.

(** X27.  The gathering fails in exactly three cases: the folder gave no
    path, some path cannot be read, or no reference text has a character
    other than whitespace, so that no chunk was made. *)
Theorem gathering_fails_iff (docx_files : files)
    (text_files : gmap string string) (paths : list string) :
  gather_chunks docx_files text_files paths = Raise
  <-> paths = []
      \/ (exists p, p ∈ paths
            /\ read_reference docx_files text_files p = Raise)
      \/ (forall p t, p ∈ paths ->
            read_reference docx_files text_files p = Return t ->
            ~ visible t).
Proof.
  unfold gather_chunks, enumerate. destruct paths as [|p0 ps0].
  - split; [by left|done].
  - set (paths := p0 :: ps0).
    destruct (gather_loop docx_files text_files (enumerate_from 0 paths)
                (Chunks [] [] [])) as [acc|] eqn:Hloop; simpl.
    + destruct (gather_loop_grows _ _ _ _ _ _ Hloop) as [_ Hiff].
      simpl in Hiff.
      assert (Hnot : ~ exists p, p ∈ paths
                /\ read_reference docx_files text_files p = Raise).
      { intros Hex. apply gather_loop_raise with (n := 0)
          (acc := Chunks [] [] []) in Hex. congruence. }
      destruct (docs acc) as [|c cs] eqn:Hd; simpl in Hiff.
      * split; [|done]. intros _. right. right.
        intros p t Hp Hr Hv.
        assert (0 < 0) by (apply Hiff; by exists p, t). lia.
      * split; [done|]. intros [H|[H|H]]; [done|by destruct Hnot|].
        destruct (proj1 Hiff) as (p & t & Hp & Hr & Hv); [lia|].
        by destruct (H p t Hp Hr).
    + split; [|done]. intros _. right. left.
      by apply (gather_loop_raise docx_files text_files 0 paths
                  (Chunks [] [] [])).
Qed.
